(** * PrefixEncoder (src/peft/tuners/prefix_tuning.py)

    A shallow embedding of [PrefixTuningConfig] and of the [PrefixEncoder]
    module: its constructor [__init__], which picks one of four topologies
    from the configuration flags, and its [forward] method.

    Tensors are kept as the tensor library keeps them: a shape and the
    row-major list of their elements.  Floating-point numbers are an
    abstract carrier [R] with the operations the layers use; no law of
    arithmetic is assumed about them.  Exceptions are values of [exn];
    a call either raises or returns.  The constructor draws the initial
    parameters from a generator whose state is threaded explicitly, and
    [forward] runs over the object [self] as its state. *)

From Stdlib Require Import String List ZArith Arith Bool Lia.
Import ListNotations.

Set Implicit Arguments.

(** ** Exceptions and the two effects of the code *)

Inductive exn : Type :=
| TypeError                       (* a [None] where a size is expected *)
| IndexError                      (* embedding index out of range *)
| RuntimeError                    (* sizes of operands do not match *)
| AttributeError (attr : string). (* attribute never assigned on [self] *)

Definition result (A : Type) : Type := (exn + A)%type.

(** A computation over a state [S] that may raise: the state reached is
    returned in both cases. *)
Definition SE (S A : Type) : Type := S -> result A * S.

Class Monad (M : Type -> Type) : Type :=
  { ret : forall {A}, A -> M A;
    bind : forall {A B}, M A -> (A -> M B) -> M B }.

#[export] Instance Monad_result : Monad result :=
  { ret := fun A (a : A) => inr a;
    bind := fun A B (c : result A) (k : A -> result B) =>
              match c with
              | inl e => inl e
              | inr a => k a
              end }.

#[export] Instance Monad_SE (S : Type) : Monad (SE S) :=
  { ret := fun A (a : A) (s : S) => (inr a, s);
    bind := fun A B (c : SE S A) (k : A -> SE S B) (s : S) =>
              match c s with
              | (inl e, s') => (inl e, s')
              | (inr a, s') => k a s'
              end }.

Declare Scope se_scope.
Delimit Scope se_scope with se.
Notation "x <- c ;; k" := (bind c (fun x => k))
  (at level 100, c at next level, right associativity) : se_scope.
Open Scope se_scope.

Definition raise {A : Type} (e : exn) : result A := inl e.

(** Reading a field of the state. *)
Definition gets {S A : Type} (f : S -> A) : SE S A := fun s => (inr (f s), s).

(** Running a pure, possibly raising, call inside a stateful one. *)
Definition lift {S A : Type} (c : result A) : SE S A := fun s => (c, s).

(** Reading an attribute that [__init__] assigns in some branches only. *)
Definition getattr {S A : Type} (name : string) (f : S -> option A) : SE S A :=
  fun s => match f s with
           | Some a => (inr a, s)
           | None => (inl (AttributeError name), s)
           end.

Fixpoint mapM {A B : Type} (f : A -> result B) (l : list A) : result (list B) :=
  match l with
  | [] => ret []
  | a :: l' => b <- f a ;; bs <- mapM f l' ;; ret (b :: bs)
  end.

(** ** Tensors *)

Record tensor (A : Type) : Type := mkTensor { shape : list nat; data : list A }.

Definition numel (s : list nat) : nat := fold_right Nat.mul 1 s.

(** A tensor holds as many elements as its shape says. *)
Definition wf {A : Type} (t : tensor A) : Prop :=
  length (data t) = numel (shape t).

(** Row [r] of a row-major buffer whose rows have [d] elements. *)
Definition row {A : Type} (dflt : A) (d : nat) (flat : list A) (r : nat) : list A :=
  map (fun j => nth (r * d + j) flat dflt) (seq 0 d).

(** The leading dimensions and the last one; [None] for a rank-0 tensor. *)
Fixpoint split_last (s : list nat) : option (list nat * nat) :=
  match s with
  | [] => None
  | k :: s' =>
      match split_last s' with
      | None => Some ([], k)
      | Some (lead, l) => Some (k :: lead, l)
      end
  end.

(** Broadcasting of two shapes, both given last dimension first. *)
Fixpoint broadcast_rev (s1 s2 : list nat) : option (list nat) :=
  match s1, s2 with
  | [], s => Some s
  | s, [] => Some s
  | a :: s1', b :: s2' =>
      match broadcast_rev s1' s2' with
      | None => None
      | Some s =>
          if a =? b then Some (a :: s)
          else if a =? 1 then Some (b :: s)
          else if b =? 1 then Some (a :: s)
          else None
      end
  end.

(** Position, in an operand of reversed shape [s], of the element that is
    broadcast to position [k] of a result of reversed shape [rs]. *)
Fixpoint bindex (rs s : list nat) (k : nat) : nat :=
  match rs, s with
  | r :: rs', a :: s' =>
      (if a =? r then k mod r else 0) + a * bindex rs' s' (k / r)
  | _, _ => 0
  end.

(** The integer tensors that index an embedding table. *)
Definition in_range (n : nat) (idx : tensor Z) : Prop :=
  Forall (fun i => (0 <= i < Z.of_nat n)%Z) (data idx).

Definition index_ok (n : nat) (i : Z) : bool :=
  ((0 <=? i) && (i <? Z.of_nat n))%Z.

(** ** PrefixTuningConfig

    The fields [__init__] reads.  [token_dim], [num_layers] and
    [num_virtual_tokens] are sizes; [encoder_hidden_size] defaults to
    [None]. *)

Module PrefixTuningConfig.
Record t : Type := mk
  { token_dim : nat;
    num_layers : nat;
    num_virtual_tokens : nat;
    encoder_hidden_size : option nat;
    prefix_projection : bool;
    use_residual_connect : bool;
    use_residual_block : bool;
    inference_mode : bool }.

(** The same configuration with one field replaced. *)
Definition with_encoder_hidden_size (h : option nat) (c : t) : t :=
  mk (token_dim c) (num_layers c) (num_virtual_tokens c) h
     (prefix_projection c) (use_residual_connect c) (use_residual_block c)
     (inference_mode c).

Definition with_use_residual_block (b : bool) (c : t) : t :=
  mk (token_dim c) (num_layers c) (num_virtual_tokens c) (encoder_hidden_size c)
     (prefix_projection c) (use_residual_connect c) b
     (inference_mode c).
End PrefixTuningConfig.

Definition Config : Type := PrefixTuningConfig.t.

(** The width of the prefix tensor: [num_layers * 2 * token_dim]. *)
Definition out_width (config : Config) : nat :=
  PrefixTuningConfig.num_layers config * 2 * PrefixTuningConfig.token_dim config.

(** ** Scalars

    The operations of the element type that the layers of this file use. *)

Class Scalar (R : Type) : Type :=
  { s_zero : R;
    s_one : R;
    s_eps : R;                   (* LayerNorm's [eps] *)
    s_of_nat : nat -> R;
    s_add : R -> R -> R;
    s_sub : R -> R -> R;
    s_mul : R -> R -> R;
    s_div : R -> R -> R;
    s_sqrt : R -> R;
    s_tanh : R -> R;
    s_relu : R -> R }.

Section Model.

Context {R : Type} {SR : Scalar R}.

(** The generator the constructors draw initial parameters from. *)
Variable seed : Type.
Variable draw : seed -> R * seed.

Definition draw1 : SE seed R :=
  fun s => let (x, s') := draw s in (inr x, s').

Fixpoint draws (n : nat) : SE seed (list R) :=
  match n with
  | 0 => ret []
  | S n' => x <- draw1 ;; xs <- draws n' ;; ret (x :: xs)
  end.

(** *** torch.nn.Embedding *)

(** [emb_weight] has shape [(num_embeddings, embedding_dim)]. *)
Record Embedding : Type := mkEmbedding
  { num_embeddings : nat;
    embedding_dim : nat;
    emb_weight : list R }.

Definition Embedding_init (n d : nat) : SE seed Embedding :=
  w <- draws (n * d) ;;
  ret {| num_embeddings := n; embedding_dim := d; emb_weight := w |}.

(** The lookup accepts an index tensor of any shape and appends the
    embedding width to it; an index outside the table raises. *)
Definition Embedding_forward (e : Embedding) (idx : tensor Z) : result (tensor R) :=
  rows <- mapM (fun i => if index_ok (num_embeddings e) i
                         then ret (row s_zero (embedding_dim e) (emb_weight e) (Z.to_nat i))
                         else raise IndexError)
               (data idx) ;;
  ret {| shape := shape idx ++ [embedding_dim e]; data := concat rows |}.

(** *** torch.nn.Linear *)

(** [lin_weight] has shape [(out_features, in_features)], [lin_bias]
    has shape [(out_features)]. *)
Record Linear : Type := mkLinear
  { in_features : nat;
    out_features : nat;
    lin_weight : list R;
    lin_bias : list R }.

(** A size that is [None] makes the allocation of the weight raise. *)
Definition Linear_init (inf outf : option nat) : SE seed Linear :=
  match inf, outf with
  | Some i, Some o =>
      w <- draws (o * i) ;;
      b <- draws o ;;
      ret {| in_features := i; out_features := o; lin_weight := w; lin_bias := b |}
  | _, _ => lift (raise TypeError)
  end.

Definition dot (u v : list R) : R :=
  fold_left (fun acc p => s_add acc (s_mul (fst p) (snd p))) (combine u v) s_zero.

Definition Linear_row (l : Linear) (x : list R) : list R :=
  map (fun j => s_add (dot x (row s_zero (in_features l) (lin_weight l) j))
                      (nth j (lin_bias l) s_zero))
      (seq 0 (out_features l)).

(** Applied to the last dimension, which must be [in_features]. *)
Definition Linear_forward (l : Linear) (x : tensor R) : result (tensor R) :=
  match split_last (shape x) with
  | None => raise RuntimeError
  | Some (lead, k) =>
      if k =? in_features l
      then ret {| shape := lead ++ [out_features l];
                  data := flat_map (fun r => Linear_row l (row s_zero k (data x) r))
                                   (seq 0 (numel lead)) |}
      else raise RuntimeError
  end.

(** *** torch.nn.LayerNorm over the last dimension *)

Record LayerNorm : Type := mkLayerNorm
  { normalized_shape : nat;
    ln_weight : list R;
    ln_bias : list R }.

Definition LayerNorm_init (d : nat) : SE seed LayerNorm :=
  ret {| normalized_shape := d;
         ln_weight := repeat s_one d;
         ln_bias := repeat s_zero d |}.

Definition mean (v : list R) : R :=
  s_div (fold_left s_add v s_zero) (s_of_nat (length v)).

Definition LayerNorm_row (ln : LayerNorm) (x : list R) : list R :=
  let m := mean x in
  let var := mean (map (fun a => s_mul (s_sub a m) (s_sub a m)) x) in
  map (fun j => s_add (s_mul (s_div (s_sub (nth j x s_zero) m)
                                    (s_sqrt (s_add var s_eps)))
                             (nth j (ln_weight ln) s_one))
                      (nth j (ln_bias ln) s_zero))
      (seq 0 (normalized_shape ln)).

Definition LayerNorm_forward (ln : LayerNorm) (x : tensor R) : result (tensor R) :=
  match split_last (shape x) with
  | None => raise RuntimeError
  | Some (lead, k) =>
      if k =? normalized_shape ln
      then ret {| shape := lead ++ [k];
                  data := flat_map (fun r => LayerNorm_row ln (row s_zero k (data x) r))
                                   (seq 0 (numel lead)) |}
      else raise RuntimeError
  end.

(** *** Element-wise layers and addition *)

Definition tensor_map (f : R -> R) (x : tensor R) : tensor R :=
  {| shape := shape x; data := map f (data x) |}.

(** [a + b] with broadcasting. *)
Definition tensor_add (a b : tensor R) : result (tensor R) :=
  match broadcast_rev (rev (shape a)) (rev (shape b)) with
  | None => raise RuntimeError
  | Some rs =>
      ret {| shape := rev rs;
             data := map (fun k => s_add (nth (bindex rs (rev (shape a)) k) (data a) s_zero)
                                         (nth (bindex rs (rev (shape b)) k) (data b) s_zero))
                         (seq 0 (numel (rev rs))) |}
  end.

(** *** Layers and torch.nn.Sequential *)

Inductive Layer : Type :=
| Linear_ (l : Linear)
| Tanh
| ReLU
| LayerNorm_ (ln : LayerNorm).

Inductive Module : Type :=
| Single (l : Layer)
| Sequential (ls : list Layer).

Definition Layer_forward (l : Layer) (x : tensor R) : result (tensor R) :=
  match l with
  | Linear_ lin => Linear_forward lin x
  | Tanh => ret (tensor_map s_tanh x)
  | ReLU => ret (tensor_map s_relu x)
  | LayerNorm_ ln => LayerNorm_forward ln x
  end.

Fixpoint Sequential_forward (ls : list Layer) (x : tensor R) : result (tensor R) :=
  match ls with
  | [] => ret x
  | l :: ls' => y <- Layer_forward l x ;; Sequential_forward ls' y
  end.

Definition Module_forward (m : Module) (x : tensor R) : result (tensor R) :=
  match m with
  | Single l => Layer_forward l x
  | Sequential ls => Sequential_forward ls x
  end.

(** ** PrefixEncoder

    The attributes [__init__] assigns.  [embedding] is assigned in both
    branches; [transform_1], [transform_2] and [transform] exist only in
    the branches that assign them. *)

Record PrefixEncoder : Type := mkPrefixEncoder
  { prefix_projection : bool;
    use_res_connect : bool;
    use_res_block : bool;
    embedding : Embedding;
    transform_1 : option Module;
    transform_2 : option Module;
    transform : option Module }.

Definition PrefixEncoder_init (config : Config) : SE seed PrefixEncoder :=
  let prefix_projection := PrefixTuningConfig.prefix_projection config in
  let token_dim := PrefixTuningConfig.token_dim config in
  let num_layers := PrefixTuningConfig.num_layers config in
  let encoder_hidden_size := PrefixTuningConfig.encoder_hidden_size config in
  let num_virtual_tokens := PrefixTuningConfig.num_virtual_tokens config in
  let use_res_connect := PrefixTuningConfig.use_residual_connect config in
  let use_res_block := PrefixTuningConfig.use_residual_block config in
  if prefix_projection && negb (PrefixTuningConfig.inference_mode config) then
    embedding <- Embedding_init num_virtual_tokens token_dim ;;
    if use_res_connect then
      t1 <- Linear_init (Some token_dim) (Some token_dim) ;;
      l2 <- Linear_init (Some token_dim) (Some (num_layers * 2 * token_dim)) ;;
      ret {| prefix_projection := prefix_projection;
             use_res_connect := use_res_connect;
             use_res_block := use_res_block;
             embedding := embedding;
             transform_1 := Some (Single (Linear_ t1));
             transform_2 := Some (Sequential [Tanh; Linear_ l2]);
             transform := None |}
    else if use_res_block then
      l1 <- Linear_init (Some token_dim) encoder_hidden_size ;;
      l2 <- Linear_init encoder_hidden_size (Some token_dim) ;;
      ln <- LayerNorm_init token_dim ;;
      l3 <- Linear_init (Some token_dim) (Some (num_layers * 2 * token_dim)) ;;
      ret {| prefix_projection := prefix_projection;
             use_res_connect := use_res_connect;
             use_res_block := use_res_block;
             embedding := embedding;
             transform_1 := Some (Sequential [Linear_ l1; ReLU; Linear_ l2; LayerNorm_ ln]);
             transform_2 := Some (Sequential [Tanh; Linear_ l3]);
             transform := None |}
    else
      l1 <- Linear_init (Some token_dim) encoder_hidden_size ;;
      l2 <- Linear_init encoder_hidden_size (Some (num_layers * 2 * token_dim)) ;;
      ret {| prefix_projection := prefix_projection;
             use_res_connect := use_res_connect;
             use_res_block := use_res_block;
             embedding := embedding;
             transform_1 := None;
             transform_2 := None;
             transform := Some (Sequential [Linear_ l1; Tanh; Linear_ l2]) |}
  else
    embedding <- Embedding_init num_virtual_tokens (num_layers * 2 * token_dim) ;;
    ret {| prefix_projection := prefix_projection;
           use_res_connect := use_res_connect;
           use_res_block := use_res_block;
           embedding := embedding;
           transform_1 := None;
           transform_2 := None;
           transform := None |}.

(** [forward], run over [self]. *)
Definition forward (prefix : tensor Z) : SE PrefixEncoder (tensor R) :=
  pp <- gets prefix_projection ;;
  if (pp : bool) then
    emb <- gets embedding ;;
    prefix_tokens <- lift (Embedding_forward emb prefix) ;;
    urc <- gets use_res_connect ;;
    urb <- gets use_res_block ;;
    if (urc || urb)%bool then
      t1 <- getattr "transform_1" transform_1 ;;
      x <- lift (Module_forward t1 prefix_tokens) ;;
      x <- lift (tensor_add x prefix_tokens) ;;
      t2 <- getattr "transform_2" transform_2 ;;
      lift (Module_forward t2 x)
    else
      t <- getattr "transform" transform ;;
      lift (Module_forward t prefix_tokens)
  else
    emb <- gets embedding ;;
    lift (Embedding_forward emb prefix).

(** The learnable parameters, in registration order. *)
Definition Layer_parameters (l : Layer) : list (list R) :=
  match l with
  | Linear_ lin => [lin_weight lin; lin_bias lin]
  | LayerNorm_ ln => [ln_weight ln; ln_bias ln]
  | Tanh | ReLU => []
  end.

Definition Module_parameters (m : option Module) : list (list R) :=
  match m with
  | None => []
  | Some (Single l) => Layer_parameters l
  | Some (Sequential ls) => flat_map Layer_parameters ls
  end.

Definition parameters (self : PrefixEncoder) : list (list R) :=
  [emb_weight (embedding self)]
    ++ Module_parameters (transform_1 self)
    ++ Module_parameters (transform_2 self)
    ++ Module_parameters (transform self).

(** The same object with some attributes replaced. *)
Definition with_use_res_block (b : bool) (self : PrefixEncoder) : PrefixEncoder :=
  {| prefix_projection := prefix_projection self;
     use_res_connect := use_res_connect self;
     use_res_block := b;
     embedding := embedding self;
     transform_1 := transform_1 self;
     transform_2 := transform_2 self;
     transform := transform self |}.

Definition with_residual_path (m1 m2 : option Module) (self : PrefixEncoder) : PrefixEncoder :=
  {| prefix_projection := prefix_projection self;
     use_res_connect := use_res_connect self;
     use_res_block := use_res_block self;
     embedding := embedding self;
     transform_1 := m1;
     transform_2 := m2;
     transform := transform self |}.

(** The objects each branch of [__init__] assigns, for given parameter
    values: [we] is the embedding table, [w]/[b] the weights and biases of
    the linear layers in the order they are created. *)
Definition obj_direct (c : Config) (we : list R) : PrefixEncoder :=
  {| prefix_projection := PrefixTuningConfig.prefix_projection c;
     use_res_connect := PrefixTuningConfig.use_residual_connect c;
     use_res_block := PrefixTuningConfig.use_residual_block c;
     embedding := mkEmbedding (PrefixTuningConfig.num_virtual_tokens c) (out_width c) we;
     transform_1 := None;
     transform_2 := None;
     transform := None |}.

Definition stage_B (c : Config) (w b : list R) : Module :=
  Sequential [Tanh; Linear_ (mkLinear (PrefixTuningConfig.token_dim c) (out_width c) w b)].

Definition obj_res_connect (c : Config) (we w1 b1 w2 b2 : list R) : PrefixEncoder :=
  let d := PrefixTuningConfig.token_dim c in
  {| prefix_projection := PrefixTuningConfig.prefix_projection c;
     use_res_connect := PrefixTuningConfig.use_residual_connect c;
     use_res_block := PrefixTuningConfig.use_residual_block c;
     embedding := mkEmbedding (PrefixTuningConfig.num_virtual_tokens c) d we;
     transform_1 := Some (Single (Linear_ (mkLinear d d w1 b1)));
     transform_2 := Some (stage_B c w2 b2);
     transform := None |}.

Definition obj_res_block (c : Config) (h : nat) (we w1 b1 w2 b2 w3 b3 : list R) : PrefixEncoder :=
  let d := PrefixTuningConfig.token_dim c in
  {| prefix_projection := PrefixTuningConfig.prefix_projection c;
     use_res_connect := PrefixTuningConfig.use_residual_connect c;
     use_res_block := PrefixTuningConfig.use_residual_block c;
     embedding := mkEmbedding (PrefixTuningConfig.num_virtual_tokens c) d we;
     transform_1 := Some (Sequential [Linear_ (mkLinear d h w1 b1); ReLU;
                                      Linear_ (mkLinear h d w2 b2);
                                      LayerNorm_ (mkLayerNorm d (repeat s_one d) (repeat s_zero d))]);
     transform_2 := Some (stage_B c w3 b3);
     transform := None |}.

Definition obj_plain (c : Config) (h : nat) (we w1 b1 w2 b2 : list R) : PrefixEncoder :=
  let d := PrefixTuningConfig.token_dim c in
  {| prefix_projection := PrefixTuningConfig.prefix_projection c;
     use_res_connect := PrefixTuningConfig.use_residual_connect c;
     use_res_block := PrefixTuningConfig.use_residual_block c;
     embedding := mkEmbedding (PrefixTuningConfig.num_virtual_tokens c) d we;
     transform_1 := None;
     transform_2 := None;
     transform := Some (Sequential [Linear_ (mkLinear d h w1 b1); Tanh;
                                    Linear_ (mkLinear h (out_width c) w2 b2)]) |}.

(** What the residual-connect and residual-block objects have in common:
    both stages exist, stage A keeps the shape of the embedding and stage B
    widens the last dimension to the output width. *)
Definition residual_obj (c : Config) (self : PrefixEncoder) : Prop :=
  prefix_projection self = true
  /\ use_res_connect self || use_res_block self = true
  /\ num_embeddings (embedding self) = PrefixTuningConfig.num_virtual_tokens c
  /\ embedding_dim (embedding self) = PrefixTuningConfig.token_dim c
  /\ transform self = None
  /\ exists A B,
       transform_1 self = Some A /\ transform_2 self = Some B
       /\ (forall E lead, shape E = lead ++ [PrefixTuningConfig.token_dim c] ->
             exists a, Module_forward A E = inr a /\ shape a = shape E /\ wf a)
       /\ (forall x lead, shape x = lead ++ [PrefixTuningConfig.token_dim c] ->
             exists y, Module_forward B x = inr y
                       /\ shape y = lead ++ [out_width c] /\ wf y).

(** Row functions.  [F] acts row by row, through [f], on tensors whose
    last dimension is [k], and gives rows of [k'] elements. *)
Definition rowwise (F : tensor R -> result (tensor R)) (k k' : nat)
                   (f : list R -> list R) : Prop :=
  (forall r, length r = k -> length (f r) = k')
  /\ forall lead rows,
       Forall (fun r => length r = k) rows -> length rows = numel lead ->
       F (mkTensor (lead ++ [k]) (concat rows))
       = inr (mkTensor (lead ++ [k']) (concat (map f rows))).

(** One row of [fa r + r]. *)
Definition residual_row (fa : list R -> list R) (k : nat) (r : list R) : list R :=
  map (fun j => s_add (nth j (fa r) s_zero) (nth j r s_zero)) (seq 0 k).

End Model.

Arguments Embedding R : clear implicits.
Arguments Linear R : clear implicits.
Arguments LayerNorm R : clear implicits.
Arguments Layer R : clear implicits.
Arguments Module R : clear implicits.
Arguments PrefixEncoder R : clear implicits.

(** ** A concrete instance

    Integers stand in for the element type, and a counter for the
    generator, so that the model runs on concrete inputs. *)

#[export] Instance Scalar_Z : Scalar Z :=
  { s_zero := 0%Z; s_one := 1%Z; s_eps := 0%Z; s_of_nat := Z.of_nat;
    s_add := Z.add; s_sub := Z.sub; s_mul := Z.mul; s_div := Z.div;
    s_sqrt := Z.sqrt; s_tanh := fun x => x; s_relu := Z.max 0 }.

Definition counter (s : Z) : Z * Z := (s, (s + 1)%Z).

(** A generator whose draws are all zero. *)
Definition zeros (s : Z) : Z * Z := (0%Z, (s + 1)%Z).

(** A generator that replays a tape, and zeros once it is exhausted. *)
Definition replay (s : list Z) : Z * list Z := (hd 0%Z s, tl s).

(** A tape for [token_dim=4, num_virtual_tokens=3] in the residual-connect
    topology: the 3x4 embedding table, then the 4x4 identity matrix and a
    zero bias for stage A. *)
Definition identity_stage_A_tape : list Z :=
  [1; 2; 3; 4; 5; 6; 7; 8; 9; 10; 11; 12;
   1; 0; 0; 0;  0; 1; 0; 0;  0; 0; 1; 0;  0; 0; 0; 1;
   0; 0; 0; 0]%Z.

(** [token_dim=4, num_layers=2, num_virtual_tokens=3]. *)
Definition sample_config (h : option nat) (pp urc urb inf : bool) : Config :=
  PrefixTuningConfig.mk 4 2 3 h pp urc urb inf.

(** The index tensor [[0, 1, 2]] of shape (1, 3). *)
Definition sample_prefix : tensor Z := mkTensor [1; 3] [0; 1; 2]%Z.

(** * Properties *)

Section Properties.

Context {R : Type} {SR : Scalar R}.
Variable seed : Type.
Variable draw : seed -> R * seed.

(** ** Shapes *)

Lemma numel_app (s : list nat) (k : nat) : numel (s ++ [k]) = numel s * k.
Proof.
  induction s as [|a s IH]; simpl.
  - lia.
  - rewrite IH. lia.
Qed.

Lemma numel_rev (s : list nat) : numel (rev s) = numel s.
Proof.
  induction s as [|a s IH]; simpl; [reflexivity|].
  rewrite numel_app, IH. lia.
Qed.

Lemma split_last_app (s : list nat) (k : nat) : split_last (s ++ [k]) = Some (s, k).
Proof.
  induction s as [|a s IH]; simpl; [reflexivity|].
  now rewrite IH.
Qed.

Lemma length_flat_map_const {A B : Type} (f : A -> list B) (n : nat) (l : list A) :
  (forall a, length (f a) = n) -> length (flat_map f l) = length l * n.
Proof.
  intros Hf. induction l as [|a l IH]; simpl; [reflexivity|].
  rewrite length_app, Hf, IH. reflexivity.
Qed.

Lemma length_row {A : Type} (dflt : A) (d : nat) (flat : list A) (r : nat) :
  length (row dflt d flat r) = d.
Proof. unfold row. now rewrite length_map, length_seq. Qed.

Lemma broadcast_rev_same (s : list nat) : broadcast_rev s s = Some s.
Proof.
  induction s as [|a s IH]; simpl; [reflexivity|].
  now rewrite IH, Nat.eqb_refl.
Qed.

Lemma bindex_same (rs : list nat) :
  forall k, k < numel rs -> bindex rs rs k = k.
Proof.
  induction rs as [|r rs IH]; simpl; intros k Hk.
  - lia.
  - rewrite Nat.eqb_refl.
    assert (Hr : r <> 0) by (intros ->; simpl in Hk; lia).
    rewrite IH.
    + pose proof (Nat.div_mod k r Hr). lia.
    + apply Nat.Div0.div_lt_upper_bound. lia.
Qed.

(** ** The layers *)

Lemma draws_run (n : nat) :
  forall s, exists l s', draws draw n s = (inr l, s') /\ length l = n.
Proof.
  induction n as [|n IH]; intros s; simpl.
  - exists [], s. split; reflexivity.
  - unfold draw1. destruct (draw s) as [x s1].
    destruct (IH s1) as (l & s2 & Hl & Hlen).
    rewrite Hl. exists (x :: l), s2. simpl. split; [reflexivity | now rewrite Hlen].
Qed.

Lemma Embedding_init_run (n d : nat) (s : seed) :
  exists w s', Embedding_init draw n d s = (inr (mkEmbedding n d w), s')
               /\ length w = n * d.
Proof.
  unfold Embedding_init. simpl.
  destruct (draws_run (n * d) s) as (w & s' & Hw & Hlen).
  rewrite Hw. now exists w, s'.
Qed.

Lemma Linear_init_run (i o : nat) (s : seed) :
  exists w b s', Linear_init draw (Some i) (Some o) s = (inr (mkLinear i o w b), s')
                 /\ length w = o * i /\ length b = o.
Proof.
  unfold Linear_init. simpl.
  destruct (draws_run (o * i) s) as (w & s1 & Hw & Hlw). rewrite Hw.
  destruct (draws_run o s1) as (b & s2 & Hb & Hlb). rewrite Hb.
  now exists w, b, s2.
Qed.

Lemma mapM_cons {A B : Type} (f : A -> result B) (a : A) (l : list A) :
  mapM f (a :: l)
  = match f a with
    | inl e => inl e
    | inr b => match mapM f l with
               | inl e => inl e
               | inr bs => inr (b :: bs)
               end
    end.
Proof. reflexivity. Qed.

Lemma lookup_rows_ok (e : Embedding R) (l : list Z) :
  Forall (fun i => (0 <= i < Z.of_nat (num_embeddings e))%Z) l ->
  exists rows,
    mapM (fun i => if index_ok (num_embeddings e) i
                   then ret (row s_zero (embedding_dim e) (emb_weight e) (Z.to_nat i))
                   else raise IndexError) l = inr rows
    /\ length (concat rows) = length l * embedding_dim e.
Proof.
  induction 1 as [|i l Hi _ IH].
  - now exists [].
  - destruct IH as (rows & Hrows & Hlen).
    assert (Hok : index_ok (num_embeddings e) i = true).
    { unfold index_ok. apply andb_true_iff. split; [apply Z.leb_le | apply Z.ltb_lt]; lia. }
    rewrite mapM_cons, Hok, Hrows. simpl.
    eexists. split; [reflexivity|].
    simpl. now rewrite length_app, length_row, Hlen.
Qed.

Lemma lookup_rows_err (e : Embedding R) (l : list Z) :
  Exists (fun i => (i < 0 \/ Z.of_nat (num_embeddings e) <= i)%Z) l ->
  mapM (fun i => if index_ok (num_embeddings e) i
                 then ret (row s_zero (embedding_dim e) (emb_weight e) (Z.to_nat i))
                 else raise IndexError) l = inl IndexError.
Proof.
  induction 1 as [i l Hi | i l _ IH]; rewrite mapM_cons.
  - assert (Hko : index_ok (num_embeddings e) i = false).
    { unfold index_ok. apply andb_false_iff.
      destruct Hi; [left; apply Z.leb_gt | right; apply Z.ltb_ge]; lia. }
    now rewrite Hko.
  - rewrite IH. now destruct (index_ok (num_embeddings e) i).
Qed.

Lemma Embedding_forward_ok (e : Embedding R) (idx : tensor Z) :
  wf idx -> in_range (num_embeddings e) idx ->
  exists E, Embedding_forward e idx = inr E
            /\ shape E = shape idx ++ [embedding_dim e] /\ wf E.
Proof.
  intros Hwf Hin. unfold Embedding_forward.
  destruct (lookup_rows_ok e Hin) as (rows & Hrows & Hlen).
  rewrite Hrows. simpl. eexists. split; [reflexivity|]. split; [reflexivity|].
  unfold wf in *. simpl. now rewrite numel_app, Hlen, Hwf.
Qed.

Lemma Embedding_forward_err (e : Embedding R) (idx : tensor Z) :
  Exists (fun i => (i < 0 \/ Z.of_nat (num_embeddings e) <= i)%Z) (data idx) ->
  Embedding_forward e idx = inl IndexError.
Proof.
  intros Hbad. unfold Embedding_forward.
  now rewrite (lookup_rows_err e Hbad).
Qed.

Lemma Linear_forward_ok (l : Linear R) (x : tensor R) (lead : list nat) :
  shape x = lead ++ [in_features l] ->
  exists y, Linear_forward l x = inr y
            /\ shape y = lead ++ [out_features l] /\ wf y.
Proof.
  intros Hs. unfold Linear_forward.
  rewrite Hs, split_last_app, Nat.eqb_refl. simpl.
  eexists. split; [reflexivity|]. split; [reflexivity|].
  unfold wf. simpl. rewrite numel_app.
  rewrite length_flat_map_const with (n := out_features l).
  - now rewrite length_seq.
  - intros r. unfold Linear_row. now rewrite length_map, length_seq.
Qed.

Lemma LayerNorm_forward_ok (ln : LayerNorm R) (x : tensor R) (lead : list nat) :
  shape x = lead ++ [normalized_shape ln] ->
  exists y, LayerNorm_forward ln x = inr y
            /\ shape y = lead ++ [normalized_shape ln] /\ wf y.
Proof.
  intros Hs. unfold LayerNorm_forward.
  rewrite Hs, split_last_app, Nat.eqb_refl. simpl.
  eexists. split; [reflexivity|]. split; [reflexivity|].
  unfold wf. simpl. rewrite numel_app.
  rewrite length_flat_map_const with (n := normalized_shape ln).
  - now rewrite length_seq.
  - intros r. unfold LayerNorm_row. now rewrite length_map, length_seq.
Qed.

(** Two tensors of one shape are added element by element. *)
Lemma tensor_add_same_shape (a b : tensor R) :
  shape a = shape b ->
  exists x, tensor_add a b = inr x
            /\ shape x = shape b /\ wf x
            /\ forall k, k < numel (shape b) ->
                 nth k (data x) s_zero
                 = s_add (nth k (data a) s_zero) (nth k (data b) s_zero).
Proof.
  intros Hs. unfold tensor_add. rewrite Hs, broadcast_rev_same. simpl.
  eexists. split; [reflexivity|]. rewrite rev_involutive.
  split; [reflexivity|]. split.
  - unfold wf. simpl. now rewrite length_map, length_seq.
  - intros k Hk. simpl.
    rewrite (nth_indep _ s_zero (s_add (nth (bindex (rev (shape b)) (rev (shape b)) 0) (data a) s_zero)
                                       (nth (bindex (rev (shape b)) (rev (shape b)) 0) (data b) s_zero)))
      by (now rewrite length_map, length_seq).
    rewrite (map_nth (fun k => s_add (nth (bindex (rev (shape b)) (rev (shape b)) k) (data a) s_zero)
                                     (nth (bindex (rev (shape b)) (rev (shape b)) k) (data b) s_zero))).
    rewrite seq_nth by assumption. simpl.
    rewrite bindex_same by (now rewrite numel_rev). reflexivity.
Qed.

(** ** Running the two effects *)

Lemma bind_run {S A B : Type} (c : SE S A) (k : A -> SE S B) (s s' : S) (a : A) :
  c s = (inr a, s') -> bind c k s = k a s'.
Proof. intros H. simpl. now rewrite H. Qed.

Ltac run_with H := rewrite (bind_run _ _ _ H); cbv beta iota zeta.

(** ** The four objects [__init__] can return *)

Local Abbreviation init := (PrefixEncoder_init draw).

Lemma init_direct (c : Config) (s : seed) :
  PrefixTuningConfig.prefix_projection c && negb (PrefixTuningConfig.inference_mode c) = false ->
  exists we s', init c s = (inr (obj_direct c we), s').
Proof.
  intros Hb. unfold PrefixEncoder_init. rewrite Hb. cbv beta iota zeta.
  destruct (Embedding_init_run (PrefixTuningConfig.num_virtual_tokens c) (out_width c) s)
    as (we & s1 & He & _).
  unfold out_width in He. run_with He.
  now exists we, s1.
Qed.

Lemma init_res_connect (c : Config) (s : seed) :
  PrefixTuningConfig.prefix_projection c = true ->
  PrefixTuningConfig.inference_mode c = false ->
  PrefixTuningConfig.use_residual_connect c = true ->
  exists we w1 b1 w2 b2 s', init c s = (inr (obj_res_connect c we w1 b1 w2 b2), s').
Proof.
  intros Hpp Hinf Hurc. unfold PrefixEncoder_init. rewrite Hpp, Hinf, Hurc.
  cbn [andb negb]. cbv beta iota zeta.
  set (d := PrefixTuningConfig.token_dim c).
  destruct (Embedding_init_run (PrefixTuningConfig.num_virtual_tokens c) d s)
    as (we & s1 & He & _).
  run_with He.
  destruct (Linear_init_run d d s1) as (w1 & b1 & s2 & H1 & _). run_with H1.
  destruct (Linear_init_run d (out_width c) s2) as (w2 & b2 & s3 & H2 & _).
  unfold out_width in H2. fold d in H2. run_with H2.
  exists we, w1, b1, w2, b2, s3. unfold obj_res_connect, stage_B, out_width.
  now rewrite Hpp, Hurc.
Qed.

Lemma init_res_block (c : Config) (h : nat) (s : seed) :
  PrefixTuningConfig.prefix_projection c = true ->
  PrefixTuningConfig.inference_mode c = false ->
  PrefixTuningConfig.use_residual_connect c = false ->
  PrefixTuningConfig.use_residual_block c = true ->
  PrefixTuningConfig.encoder_hidden_size c = Some h ->
  exists we w1 b1 w2 b2 w3 b3 s',
    init c s = (inr (obj_res_block c h we w1 b1 w2 b2 w3 b3), s').
Proof.
  intros Hpp Hinf Hurc Hurb Hh. unfold PrefixEncoder_init.
  rewrite Hpp, Hinf, Hurc, Hurb, Hh. cbn [andb negb]. cbv beta iota zeta.
  set (d := PrefixTuningConfig.token_dim c).
  destruct (Embedding_init_run (PrefixTuningConfig.num_virtual_tokens c) d s)
    as (we & s1 & He & _).
  run_with He.
  destruct (Linear_init_run d h s1) as (w1 & b1 & s2 & H1 & _). run_with H1.
  destruct (Linear_init_run h d s2) as (w2 & b2 & s3 & H2 & _). run_with H2.
  assert (Hln : LayerNorm_init (seed := seed) d s3
                = (inr (mkLayerNorm d (repeat s_one d) (repeat s_zero d)), s3))
    by reflexivity.
  run_with Hln.
  destruct (Linear_init_run d (out_width c) s3) as (w3 & b3 & s4 & H3 & _).
  unfold out_width in H3. fold d in H3. run_with H3.
  exists we, w1, b1, w2, b2, w3, b3, s4. unfold obj_res_block, stage_B, out_width.
  now rewrite Hpp, Hurc, Hurb.
Qed.

Lemma init_plain (c : Config) (h : nat) (s : seed) :
  PrefixTuningConfig.prefix_projection c = true ->
  PrefixTuningConfig.inference_mode c = false ->
  PrefixTuningConfig.use_residual_connect c = false ->
  PrefixTuningConfig.use_residual_block c = false ->
  PrefixTuningConfig.encoder_hidden_size c = Some h ->
  exists we w1 b1 w2 b2 s', init c s = (inr (obj_plain c h we w1 b1 w2 b2), s').
Proof.
  intros Hpp Hinf Hurc Hurb Hh. unfold PrefixEncoder_init.
  rewrite Hpp, Hinf, Hurc, Hurb, Hh. cbn [andb negb]. cbv beta iota zeta.
  set (d := PrefixTuningConfig.token_dim c).
  destruct (Embedding_init_run (PrefixTuningConfig.num_virtual_tokens c) d s)
    as (we & s1 & He & _).
  run_with He.
  destruct (Linear_init_run d h s1) as (w1 & b1 & s2 & H1 & _). run_with H1.
  destruct (Linear_init_run h (out_width c) s2) as (w2 & b2 & s3 & H2 & _).
  unfold out_width in H2. fold d in H2. run_with H2.
  exists we, w1, b1, w2, b2, s3. unfold obj_plain, out_width.
  now rewrite Hpp, Hurc, Hurb.
Qed.

(** Without [encoder_hidden_size], the first linear layer of the
    residual-block and plain branches cannot be allocated. *)
Lemma init_hidden_missing (c : Config) (s : seed) :
  PrefixTuningConfig.prefix_projection c = true ->
  PrefixTuningConfig.inference_mode c = false ->
  PrefixTuningConfig.use_residual_connect c = false ->
  PrefixTuningConfig.encoder_hidden_size c = None ->
  exists s', init c s = (inl TypeError, s').
Proof.
  intros Hpp Hinf Hurc Hh. unfold PrefixEncoder_init.
  rewrite Hpp, Hinf, Hurc, Hh. cbn [andb negb]. cbv beta iota zeta.
  destruct (Embedding_init_run (PrefixTuningConfig.num_virtual_tokens c)
              (PrefixTuningConfig.token_dim c) s) as (we & s1 & He & _).
  run_with He. exists s1.
  destruct (PrefixTuningConfig.use_residual_block c); reflexivity.
Qed.

(** ** [forward] as a function of [self] and the indices *)

Lemma forward_result (prefix : tensor Z) (self : PrefixEncoder R) :
  fst (forward prefix self)
  = if prefix_projection self then
      match Embedding_forward (embedding self) prefix with
      | inl e => inl e
      | inr E =>
          if use_res_connect self || use_res_block self then
            match transform_1 self with
            | None => inl (AttributeError "transform_1")
            | Some t1 =>
                match Module_forward t1 E with
                | inl e => inl e
                | inr a =>
                    match tensor_add a E with
                    | inl e => inl e
                    | inr x =>
                        match transform_2 self with
                        | None => inl (AttributeError "transform_2")
                        | Some t2 => Module_forward t2 x
                        end
                    end
                end
            end
          else
            match transform self with
            | None => inl (AttributeError "transform")
            | Some t => Module_forward t E
            end
      end
    else Embedding_forward (embedding self) prefix.
Proof.
  unfold forward, gets, lift, getattr. simpl.
  destruct (prefix_projection self); [|reflexivity].
  destruct (Embedding_forward (embedding self) prefix) as [e|E]; [reflexivity|].
  destruct (use_res_connect self || use_res_block self).
  - destruct (transform_1 self) as [t1|]; [|reflexivity].
    destruct (Module_forward t1 E) as [e|a]; [reflexivity|].
    destruct (tensor_add a E) as [e|x]; [reflexivity|].
    destruct (transform_2 self); reflexivity.
  - destruct (transform self); reflexivity.
Qed.

Lemma forward_reads_only (prefix : tensor Z) (self : PrefixEncoder R) :
  snd (forward prefix self) = self.
Proof.
  unfold forward, gets, lift, getattr. simpl.
  destruct (prefix_projection self); [|reflexivity].
  destruct (Embedding_forward (embedding self) prefix) as [e|E]; [reflexivity|].
  destruct (use_res_connect self || use_res_block self).
  - destruct (transform_1 self) as [t1|]; [|reflexivity].
    destruct (Module_forward t1 E) as [e|a]; [reflexivity|].
    destruct (tensor_add a E) as [e|x]; [reflexivity|].
    destruct (transform_2 self); reflexivity.
  - destruct (transform self); reflexivity.
Qed.

(** ** The stages on a tensor whose last dimension is [token_dim] *)

Lemma bind_inr {A B : Type} (a : A) (k : A -> result B) : bind (inr a : result A) k = k a.
Proof. reflexivity. Qed.

Lemma bind_ret {A B : Type} (a : A) (k : A -> result B) : bind (ret a : result A) k = k a.
Proof. reflexivity. Qed.

Ltac seq_step := cbn [Module_forward Sequential_forward Layer_forward].
Ltac use_layer H := rewrite H, bind_inr.

Lemma stage_A_connect_ok (d : nat) (w b : list R) (E : tensor R) (lead : list nat) :
  shape E = lead ++ [d] ->
  exists a, Module_forward (Single (Linear_ (mkLinear d d w b))) E = inr a
            /\ shape a = shape E /\ wf a.
Proof.
  intros Hs. seq_step.
  destruct (Linear_forward_ok (mkLinear d d w b) E lead Hs) as (a & Ha & Hsa & Hwa).
  exists a. rewrite Hs. auto.
Qed.

Lemma stage_A_block_ok (d h : nat) (w1 b1 w2 b2 g bt : list R) (E : tensor R) (lead : list nat) :
  shape E = lead ++ [d] ->
  exists a, Module_forward (Sequential [Linear_ (mkLinear d h w1 b1); ReLU;
                                        Linear_ (mkLinear h d w2 b2);
                                        LayerNorm_ (mkLayerNorm d g bt)]) E = inr a
            /\ shape a = shape E /\ wf a.
Proof.
  intros Hs. seq_step.
  destruct (Linear_forward_ok (mkLinear d h w1 b1) E lead Hs) as (y1 & H1 & Hs1 & _).
  use_layer H1. rewrite bind_ret.
  destruct (Linear_forward_ok (mkLinear h d w2 b2) (tensor_map s_relu y1) lead Hs1)
    as (y2 & H2 & Hs2 & _).
  use_layer H2.
  destruct (LayerNorm_forward_ok (mkLayerNorm d g bt) y2 lead Hs2) as (y3 & H3 & Hs3 & Hw3).
  use_layer H3. exists y3. rewrite Hs. auto.
Qed.

Lemma stage_B_ok (c : Config) (w b : list R) (x : tensor R) (lead : list nat) :
  shape x = lead ++ [PrefixTuningConfig.token_dim c] ->
  exists y, Module_forward (stage_B c w b) x = inr y
            /\ shape y = lead ++ [out_width c] /\ wf y.
Proof.
  intros Hs. unfold stage_B. seq_step. rewrite bind_ret.
  destruct (Linear_forward_ok (mkLinear (PrefixTuningConfig.token_dim c) (out_width c) w b)
              (tensor_map s_tanh x) lead Hs) as (y & Hy & Hsy & Hwy).
  use_layer Hy. now exists y.
Qed.

Lemma plain_ok (d h o : nat) (w1 b1 w2 b2 : list R) (E : tensor R) (lead : list nat) :
  shape E = lead ++ [d] ->
  exists y, Module_forward (Sequential [Linear_ (mkLinear d h w1 b1); Tanh;
                                        Linear_ (mkLinear h o w2 b2)]) E = inr y
            /\ shape y = lead ++ [o] /\ wf y.
Proof.
  intros Hs. seq_step.
  destruct (Linear_forward_ok (mkLinear d h w1 b1) E lead Hs) as (y1 & H1 & Hs1 & _).
  use_layer H1. rewrite bind_ret.
  destruct (Linear_forward_ok (mkLinear h o w2 b2) (tensor_map s_tanh y1) lead Hs1)
    as (y2 & H2 & Hs2 & Hw2).
  use_layer H2. now exists y2.
Qed.

(** ** Objects with a residual path *)

Lemma init_residual (c : Config) (s s' : seed) (self : PrefixEncoder R) :
  PrefixTuningConfig.prefix_projection c = true ->
  PrefixTuningConfig.inference_mode c = false ->
  PrefixTuningConfig.use_residual_connect c = true
  \/ PrefixTuningConfig.use_residual_block c = true ->
  init c s = (inr self, s') ->
  residual_obj c self.
Proof.
  intros Hpp Hinf Hflag Hinit.
  destruct (PrefixTuningConfig.use_residual_connect c) eqn:Hurc.
  - destruct (init_res_connect c s Hpp Hinf Hurc) as (we & w1 & b1 & w2 & b2 & s1 & H).
    rewrite H in Hinit. injection Hinit as <- _.
    unfold residual_obj, obj_res_connect; cbn.
    rewrite Hpp, Hurc. repeat split.
    eexists _, _. repeat split.
    + intros E lead. apply stage_A_connect_ok.
    + intros x lead. apply stage_B_ok.
  - destruct Hflag as [Hf|Hurb]; [discriminate|].
    destruct (PrefixTuningConfig.encoder_hidden_size c) as [h|] eqn:Hh.
    + destruct (init_res_block c s Hpp Hinf Hurc Hurb Hh)
        as (we & w1 & b1 & w2 & b2 & w3 & b3 & s1 & H).
      rewrite H in Hinit. injection Hinit as <- _.
      unfold residual_obj, obj_res_block; cbn.
      rewrite Hpp, Hurc, Hurb. repeat split.
      eexists _, _. repeat split.
      * intros E lead. apply stage_A_block_ok.
      * intros x lead. apply stage_B_ok.
    + destruct (init_hidden_missing c s Hpp Hinf Hurc Hh) as (s1 & H).
      rewrite H in Hinit. discriminate.
Qed.

(** The run of [forward] on an object with a residual path: the lookup
    [E], stage A's output [a], the sum [x] and stage B's output [y]. *)
Lemma forward_residual (c : Config) (self : PrefixEncoder R) (prefix : tensor Z) :
  residual_obj c self -> wf prefix ->
  in_range (PrefixTuningConfig.num_virtual_tokens c) prefix ->
  exists A B E a x y,
    transform_1 self = Some A /\ transform_2 self = Some B
    /\ Embedding_forward (embedding self) prefix = inr E
    /\ shape E = shape prefix ++ [PrefixTuningConfig.token_dim c] /\ wf E
    /\ Module_forward A E = inr a /\ shape a = shape E /\ wf a
    /\ tensor_add a E = inr x /\ shape x = shape E /\ wf x
    /\ (forall k, k < numel (shape E) ->
          nth k (data x) s_zero = s_add (nth k (data a) s_zero) (nth k (data E) s_zero))
    /\ Module_forward B x = inr y
    /\ shape y = shape prefix ++ [out_width c] /\ wf y
    /\ fst (forward prefix self) = inr y.
Proof.
  intros (Hpp & Hres & Hn & Hd & _ & A & B & H1 & H2 & HA & HB) Hwf Hin.
  rewrite <- Hn in Hin.
  destruct (Embedding_forward_ok (embedding self) Hwf Hin) as (E & HE & HsE & HwE).
  rewrite Hd in HsE.
  destruct (HA E _ HsE) as (a & Ha & Hsa & Hwa).
  destruct (tensor_add_same_shape a E Hsa) as (x & Hx & Hsx & Hwx & Hnth).
  assert (Hsx' : shape x = shape prefix ++ [PrefixTuningConfig.token_dim c])
    by (now rewrite Hsx).
  destruct (HB x _ Hsx') as (y & Hy & Hsy & Hwy).
  exists A, B, E, a, x, y.
  repeat (split; [assumption || reflexivity|]).
  rewrite forward_result, Hpp, HE, Hres, H1, Ha, Hx, H2. exact Hy.
Qed.

(** Unless the object was built for inference with [prefix_projection]
    set, [forward] appends the output width to the shape of the indices,
    whatever that shape is. *)
Lemma forward_shape (c : Config) (s s' : seed) (self : PrefixEncoder R) (prefix : tensor Z) :
  PrefixTuningConfig.prefix_projection c && PrefixTuningConfig.inference_mode c = false ->
  init c s = (inr self, s') ->
  wf prefix -> in_range (PrefixTuningConfig.num_virtual_tokens c) prefix ->
  exists y, fst (forward prefix self) = inr y
            /\ shape y = shape prefix ++ [out_width c] /\ wf y.
Proof.
  intros Hmode Hinit Hwf Hin.
  destruct (PrefixTuningConfig.prefix_projection c) eqn:Hpp.
  - simpl in Hmode.
    destruct (PrefixTuningConfig.use_residual_connect c) eqn:Hurc;
      [|destruct (PrefixTuningConfig.use_residual_block c) eqn:Hurb].
    + assert (Hr : residual_obj c self)
        by (eapply init_residual; eauto).
      destruct (forward_residual Hr Hwf Hin)
        as (A & B & E & a & x & y & H). exists y. tauto.
    + assert (Hr : residual_obj c self)
        by (eapply init_residual; eauto).
      destruct (forward_residual Hr Hwf Hin)
        as (A & B & E & a & x & y & H). exists y. tauto.
    + destruct (PrefixTuningConfig.encoder_hidden_size c) as [h|] eqn:Hh.
      * destruct (init_plain c s Hpp Hmode Hurc Hurb Hh) as (we & w1 & b1 & w2 & b2 & s1 & H).
        unfold Config in *. rewrite H in Hinit. injection Hinit as <- _.
        rewrite forward_result. unfold obj_plain; cbn [prefix_projection use_res_connect
          use_res_block embedding transform]. rewrite Hpp, Hurc, Hurb. cbn [orb].
        destruct (Embedding_forward_ok
                    (mkEmbedding (PrefixTuningConfig.num_virtual_tokens c)
                                 (PrefixTuningConfig.token_dim c) we) Hwf Hin)
          as (E & HE & HsE & _).
        rewrite HE. apply plain_ok. exact HsE.
      * destruct (init_hidden_missing c s Hpp Hmode Hurc Hh) as (s1 & H).
        unfold Config in *. rewrite H in Hinit. discriminate.
  - destruct (init_direct c s) as (we & s1 & H); [now rewrite Hpp|].
    unfold Config in *. rewrite H in Hinit. injection Hinit as <- _.
    rewrite forward_result. unfold obj_direct; cbn [prefix_projection embedding].
    rewrite Hpp.
    apply (Embedding_forward_ok
             (mkEmbedding (PrefixTuningConfig.num_virtual_tokens c) (out_width c) we) Hwf Hin).
Qed.

(** Every object [__init__] returns is one of the four, selected by the
    flags in the order of the [if]/[elif] chain. *)
Lemma init_cases (c : Config) (s s' : seed) (self : PrefixEncoder R) :
  init c s = (inr self, s') ->
  (PrefixTuningConfig.prefix_projection c && negb (PrefixTuningConfig.inference_mode c) = false
   /\ exists we, self = obj_direct c we)
  \/ (PrefixTuningConfig.prefix_projection c = true
      /\ PrefixTuningConfig.inference_mode c = false
      /\ PrefixTuningConfig.use_residual_connect c = true
      /\ exists we w1 b1 w2 b2, self = obj_res_connect c we w1 b1 w2 b2)
  \/ (PrefixTuningConfig.prefix_projection c = true
      /\ PrefixTuningConfig.inference_mode c = false
      /\ PrefixTuningConfig.use_residual_connect c = false
      /\ PrefixTuningConfig.use_residual_block c = true
      /\ exists h we w1 b1 w2 b2 w3 b3,
           PrefixTuningConfig.encoder_hidden_size c = Some h
           /\ self = obj_res_block c h we w1 b1 w2 b2 w3 b3)
  \/ (PrefixTuningConfig.prefix_projection c = true
      /\ PrefixTuningConfig.inference_mode c = false
      /\ PrefixTuningConfig.use_residual_connect c = false
      /\ PrefixTuningConfig.use_residual_block c = false
      /\ exists h we w1 b1 w2 b2,
           PrefixTuningConfig.encoder_hidden_size c = Some h
           /\ self = obj_plain c h we w1 b1 w2 b2).
Proof.
  intros Hinit.
  destruct (PrefixTuningConfig.prefix_projection c
            && negb (PrefixTuningConfig.inference_mode c)) eqn:Hb.
  - apply andb_true_iff in Hb. destruct Hb as [Hpp Hinf].
    apply negb_true_iff in Hinf. right.
    destruct (PrefixTuningConfig.use_residual_connect c) eqn:Hurc.
    { left. destruct (init_res_connect c s Hpp Hinf Hurc) as (we & w1 & b1 & w2 & b2 & s1 & H).
      rewrite H in Hinit. injection Hinit as <- _. repeat (split; [assumption || reflexivity|]). now exists we, w1, b1, w2, b2. }
    right.
    destruct (PrefixTuningConfig.encoder_hidden_size c) as [h|] eqn:Hh.
    + destruct (PrefixTuningConfig.use_residual_block c) eqn:Hurb.
      * left. destruct (init_res_block c s Hpp Hinf Hurc Hurb Hh)
          as (we & w1 & b1 & w2 & b2 & w3 & b3 & s1 & H).
        rewrite H in Hinit. injection Hinit as <- _. repeat (split; [assumption || reflexivity|]).
        now exists h, we, w1, b1, w2, b2, w3, b3.
      * right. destruct (init_plain c s Hpp Hinf Hurc Hurb Hh)
          as (we & w1 & b1 & w2 & b2 & s1 & H).
        rewrite H in Hinit. injection Hinit as <- _. repeat (split; [assumption || reflexivity|]).
        now exists h, we, w1, b1, w2, b2.
    + destruct (init_hidden_missing c s Hpp Hinf Hurc Hh) as (s1 & H).
      rewrite H in Hinit. discriminate.
  - left. split; [reflexivity|].
    destruct (init_direct c s Hb) as (we & s1 & H).
    rewrite H in Hinit. injection Hinit as <- _. now exists we.
Qed.

(** The embedding table of a constructed object has one row per
    virtual token. *)
Lemma init_num_embeddings (c : Config) (s s' : seed) (self : PrefixEncoder R) :
  init c s = (inr self, s') ->
  num_embeddings (embedding self) = PrefixTuningConfig.num_virtual_tokens c.
Proof.
  intros Hinit.
  destruct (init_cases c s Hinit)
    as [(_ & we & ->)
       |[(_ & _ & _ & we & w1 & b1 & w2 & b2 & ->)
        |[(_ & _ & _ & _ & h & we & w1 & b1 & w2 & b2 & w3 & b3 & _ & ->)
         |(_ & _ & _ & _ & h & we & w1 & b1 & w2 & b2 & _ & ->)]]];
    reflexivity.
Qed.

(** Two objects built from one configuration that hold the same
    parameter values are the same object. *)
Lemma init_same_parameters (c : Config) (s1 s1' s2 s2' : seed) (e1 e2 : PrefixEncoder R) :
  init c s1 = (inr e1, s1') -> init c s2 = (inr e2, s2') ->
  parameters e1 = parameters e2 -> e1 = e2.
Proof.
  intros H1 H2 Hp.
  destruct (init_cases c s1 H1)
    as [(Hb & we & ->)
       |[(Hpp & Hinf & Hurc & we & w1 & b1 & w2 & b2 & ->)
        |[(Hpp & Hinf & Hurc & Hurb & h & we & w1 & b1 & w2 & b2 & w3 & b3 & Hh & ->)
         |(Hpp & Hinf & Hurc & Hurb & h & we & w1 & b1 & w2 & b2 & Hh & ->)]]];
  destruct (init_cases c s2 H2)
    as [(Hb' & we' & ->)
       |[(Hpp' & Hinf' & Hurc' & we' & w1' & b1' & w2' & b2' & ->)
        |[(Hpp' & Hinf' & Hurc' & Hurb' & h' & we' & w1' & b1' & w2' & b2' & w3' & b3' & Hh' & ->)
         |(Hpp' & Hinf' & Hurc' & Hurb' & h' & we' & w1' & b1' & w2' & b2' & Hh' & ->)]]];
  try (rewrite ?Hpp, ?Hinf in *; simpl in *; congruence);
  try (rewrite ?Hpp', ?Hinf' in *; simpl in *; congruence);
  cbn in Hp; try congruence.
Qed.

(** The residual-connect branch, given the run of its three allocations:
    neither [encoder_hidden_size] nor [use_residual_block] takes part in
    them. *)
Lemma init_res_connect_from (c : Config) (s s1 s2 s3 : seed) (we w1 b1 w2 b2 : list R) :
  PrefixTuningConfig.prefix_projection c = true ->
  PrefixTuningConfig.inference_mode c = false ->
  PrefixTuningConfig.use_residual_connect c = true ->
  Embedding_init draw (PrefixTuningConfig.num_virtual_tokens c) (PrefixTuningConfig.token_dim c) s
  = (inr (mkEmbedding (PrefixTuningConfig.num_virtual_tokens c)
                      (PrefixTuningConfig.token_dim c) we), s1) ->
  Linear_init draw (Some (PrefixTuningConfig.token_dim c)) (Some (PrefixTuningConfig.token_dim c)) s1
  = (inr (mkLinear (PrefixTuningConfig.token_dim c) (PrefixTuningConfig.token_dim c) w1 b1), s2) ->
  Linear_init draw (Some (PrefixTuningConfig.token_dim c)) (Some (out_width c)) s2
  = (inr (mkLinear (PrefixTuningConfig.token_dim c) (out_width c) w2 b2), s3) ->
  init c s = (inr (obj_res_connect c we w1 b1 w2 b2), s3).
Proof.
  intros Hpp Hinf Hurc He H1 H2. unfold PrefixEncoder_init.
  rewrite Hpp, Hinf, Hurc. cbn [andb negb]. cbv beta iota zeta.
  run_with He. run_with H1. unfold out_width in H2. run_with H2.
  unfold obj_res_connect, stage_B, out_width. now rewrite Hpp, Hurc.
Qed.

Lemma res_connect_allocations (c : Config) (s : seed) :
  exists we w1 b1 w2 b2 s1 s2 s3,
    Embedding_init draw (PrefixTuningConfig.num_virtual_tokens c) (PrefixTuningConfig.token_dim c) s
    = (inr (mkEmbedding (PrefixTuningConfig.num_virtual_tokens c)
                        (PrefixTuningConfig.token_dim c) we), s1)
    /\ Linear_init draw (Some (PrefixTuningConfig.token_dim c))
                        (Some (PrefixTuningConfig.token_dim c)) s1
       = (inr (mkLinear (PrefixTuningConfig.token_dim c) (PrefixTuningConfig.token_dim c) w1 b1), s2)
    /\ Linear_init draw (Some (PrefixTuningConfig.token_dim c)) (Some (out_width c)) s2
       = (inr (mkLinear (PrefixTuningConfig.token_dim c) (out_width c) w2 b2), s3).
Proof.
  destruct (Embedding_init_run (PrefixTuningConfig.num_virtual_tokens c)
              (PrefixTuningConfig.token_dim c) s) as (we & s1 & He & _).
  destruct (Linear_init_run (PrefixTuningConfig.token_dim c)
              (PrefixTuningConfig.token_dim c) s1) as (w1 & b1 & s2 & H1 & _).
  destruct (Linear_init_run (PrefixTuningConfig.token_dim c) (out_width c) s2)
    as (w2 & b2 & s3 & H2 & _).
  now exists we, w1, b1, w2, b2, s1, s2, s3.
Qed.

(** The same allocations, with the number of values each one draws. *)
Lemma res_connect_allocations_sized (c : Config) (s : seed) :
  exists we w1 b1 w2 b2 s1 s2 s3,
    Embedding_init draw (PrefixTuningConfig.num_virtual_tokens c) (PrefixTuningConfig.token_dim c) s
    = (inr (mkEmbedding (PrefixTuningConfig.num_virtual_tokens c)
                        (PrefixTuningConfig.token_dim c) we), s1)
    /\ Linear_init draw (Some (PrefixTuningConfig.token_dim c))
                        (Some (PrefixTuningConfig.token_dim c)) s1
       = (inr (mkLinear (PrefixTuningConfig.token_dim c) (PrefixTuningConfig.token_dim c) w1 b1), s2)
    /\ Linear_init draw (Some (PrefixTuningConfig.token_dim c)) (Some (out_width c)) s2
       = (inr (mkLinear (PrefixTuningConfig.token_dim c) (out_width c) w2 b2), s3)
    /\ length we = PrefixTuningConfig.num_virtual_tokens c * PrefixTuningConfig.token_dim c
    /\ length w1 = PrefixTuningConfig.token_dim c * PrefixTuningConfig.token_dim c
    /\ length b1 = PrefixTuningConfig.token_dim c
    /\ length w2 = out_width c * PrefixTuningConfig.token_dim c
    /\ length b2 = out_width c.
Proof.
  destruct (Embedding_init_run (PrefixTuningConfig.num_virtual_tokens c)
              (PrefixTuningConfig.token_dim c) s) as (we & s1 & He & Hwe).
  destruct (Linear_init_run (PrefixTuningConfig.token_dim c)
              (PrefixTuningConfig.token_dim c) s1) as (w1 & b1 & s2 & H1 & Hw1 & Hb1).
  destruct (Linear_init_run (PrefixTuningConfig.token_dim c) (out_width c) s2)
    as (w2 & b2 & s3 & H2 & Hw2 & Hb2).
  exists we, w1, b1, w2, b2, s1, s2, s3. repeat (split; [assumption|]). assumption.
Qed.

(** In the residual-connect object the flag [use_res_block] changes
    nothing of what [forward] does. *)
Lemma forward_res_connect_any_block
  (c : Config) (we w1 b1 w2 b2 : list R) (b : bool) (prefix : tensor Z) :
  PrefixTuningConfig.use_residual_connect c = true ->
  fst (forward prefix (with_use_res_block b (obj_res_connect c we w1 b1 w2 b2)))
  = fst (forward prefix (obj_res_connect c we w1 b1 w2 b2)).
Proof.
  intros Hurc. rewrite !forward_result.
  unfold with_use_res_block, obj_res_connect;
    cbn [prefix_projection use_res_connect use_res_block embedding
         transform_1 transform_2 transform].
  rewrite Hurc. reflexivity.
Qed.

(** An object built with [prefix_projection] set in inference mode holds
    the wide embedding table only, and [forward], which tests
    [prefix_projection] alone, reads a stage that was never assigned. *)
Lemma forward_inference_projection_raises
  (c : Config) (s s' : seed) (self : PrefixEncoder R) (prefix : tensor Z) :
  PrefixTuningConfig.prefix_projection c = true ->
  PrefixTuningConfig.inference_mode c = true ->
  init c s = (inr self, s') ->
  in_range (PrefixTuningConfig.num_virtual_tokens c) prefix ->
  fst (forward prefix self)
  = inl (AttributeError
           (if PrefixTuningConfig.use_residual_connect c
               || PrefixTuningConfig.use_residual_block c
            then "transform_1" else "transform")).
Proof.
  intros Hpp Hinf Hinit Hin.
  destruct (init_direct c s) as (we & s1 & H); [now rewrite Hpp, Hinf|].
  unfold Config in *. rewrite H in Hinit. injection Hinit as <- _.
  rewrite forward_result. unfold obj_direct;
    cbn [prefix_projection use_res_connect use_res_block embedding
         transform_1 transform_2 transform].
  rewrite Hpp.
  destruct (lookup_rows_ok
              (mkEmbedding (PrefixTuningConfig.num_virtual_tokens c) (out_width c) we) Hin)
    as (rows & Hrows & _).
  unfold Embedding_forward. rewrite Hrows, bind_inr.
  cbn [ret Monad_result].
  now destruct (PrefixTuningConfig.use_residual_connect c
                || PrefixTuningConfig.use_residual_block c).
Qed.

(** * The claims *)

(** C9. A call of [forward] only reads [self]: after the call, whether it
    returned or raised, the object is the one it was before, and so are its
    embedding table, the parameters of every projection stage and the three
    topology flags [prefix_projection], [use_res_connect] and
    [use_res_block]. *)
Theorem forward_leaves_self_unchanged (prefix : tensor Z) (self : PrefixEncoder R) :
  snd (forward prefix self) = self
  /\ embedding (snd (forward prefix self)) = embedding self
  /\ parameters (snd (forward prefix self)) = parameters self
  /\ transform_1 (snd (forward prefix self)) = transform_1 self
  /\ transform_2 (snd (forward prefix self)) = transform_2 self
  /\ transform (snd (forward prefix self)) = transform self
  /\ prefix_projection (snd (forward prefix self)) = prefix_projection self
  /\ use_res_connect (snd (forward prefix self)) = use_res_connect self
  /\ use_res_block (snd (forward prefix self)) = use_res_block self.
Proof.
  pose proof (forward_reads_only prefix self) as Hsame.
  rewrite Hsame. repeat split.
Qed.

(** C8. [forward] is a function of the parameter values and of the input
    indices.  Two objects built from one configuration, from whatever
    generator states, that hold the same parameter values give the same
    result on the same indices; and a second call on the same object with
    the same indices gives the result of the first. *)
Theorem forward_deterministic
  (c : Config) (s1 s1' s2 s2' : seed) (e1 e2 : PrefixEncoder R) (prefix : tensor Z) :
  init c s1 = (inr e1, s1') -> init c s2 = (inr e2, s2') ->
  parameters e1 = parameters e2 ->
  fst (forward prefix e1) = fst (forward prefix e2)
  /\ fst (forward prefix (snd (forward prefix e1))) = fst (forward prefix e1).
Proof.
  intros H1 H2 Hp. split.
  - now rewrite (init_same_parameters c s1 s2 H1 H2 Hp).
  - now rewrite forward_reads_only.
Qed.

(** C6. On every constructed object, an index tensor that holds a
    negative value, or a value greater than or equal to
    [num_virtual_tokens] (that value itself included), makes [forward]
    raise the out-of-range error of the embedding lookup: no tensor is
    returned. *)
Theorem forward_index_out_of_range
  (c : Config) (s s' : seed) (self : PrefixEncoder R) (prefix : tensor Z) :
  init c s = (inr self, s') ->
  Exists (fun i => (i < 0 \/ Z.of_nat (PrefixTuningConfig.num_virtual_tokens c) <= i)%Z)
         (data prefix) ->
  fst (forward prefix self) = inl IndexError.
Proof.
  intros Hinit Hbad.
  rewrite <- (init_num_embeddings c s Hinit) in Hbad.
  rewrite forward_result, (Embedding_forward_err (embedding self) prefix Hbad).
  now destruct (prefix_projection self).
Qed.

(** C3. With [prefix_projection] set outside inference mode and
    [encoder_hidden_size] left at [None], the constructor raises as soon
    as the selected branch needs the hidden size, that is in the
    residual-block branch and in the plain branch (the branches taken when
    [use_residual_connect] is false): the call returns the error and no
    object, so nothing is left to fail in a later [forward]. *)
Theorem init_fails_without_hidden_size (c : Config) (s : seed) :
  PrefixTuningConfig.prefix_projection c = true ->
  PrefixTuningConfig.inference_mode c = false ->
  PrefixTuningConfig.encoder_hidden_size c = None ->
  (PrefixTuningConfig.use_residual_connect c = false
   /\ PrefixTuningConfig.use_residual_block c = true)
  \/ (PrefixTuningConfig.use_residual_connect c = false
      /\ PrefixTuningConfig.use_residual_block c = false) ->
  (exists s', init c s = (inl TypeError, s'))
  /\ forall self s', init c s <> (inr self, s').
Proof.
  intros Hpp Hinf Hh Hsel.
  assert (Hurc : PrefixTuningConfig.use_residual_connect c = false)
    by (destruct Hsel as [[H _]|[H _]]; exact H).
  destruct (init_hidden_missing c s Hpp Hinf Hurc Hh) as (s1 & H).
  split.
  - now exists s1.
  - intros self s'. rewrite H. discriminate.
Qed.

(** C4. With [prefix_projection] set outside inference mode and both
    [use_residual_connect] and [use_residual_block] true, the constructor
    does not reject the configuration: it returns the object it returns for
    the same configuration with [use_residual_block] false, up to the stored
    flag [use_res_block] itself.  The two objects have the same embedding
    table and the same stages A and B (one linear map, then tanh and a
    linear map), no [transform], the same parameters, and [forward] gives
    the same result on every input. *)
Theorem residual_connect_takes_precedence (c : Config) (s : seed) :
  PrefixTuningConfig.prefix_projection c = true ->
  PrefixTuningConfig.inference_mode c = false ->
  PrefixTuningConfig.use_residual_connect c = true ->
  PrefixTuningConfig.use_residual_block c = true ->
  exists self self' s',
    init c s = (inr self, s')
    /\ init (PrefixTuningConfig.with_use_residual_block false c) s = (inr self', s')
    /\ self' = with_use_res_block false self
    /\ embedding self' = embedding self
    /\ transform_1 self' = transform_1 self
    /\ transform_2 self' = transform_2 self
    /\ transform self' = transform self
    /\ parameters self' = parameters self
    /\ forall prefix, fst (forward prefix self') = fst (forward prefix self).
Proof.
  intros Hpp Hinf Hurc Hurb.
  destruct (res_connect_allocations c s)
    as (we & w1 & b1 & w2 & b2 & s1 & s2 & s3 & He & H1 & H2).
  exists (obj_res_connect c we w1 b1 w2 b2),
         (obj_res_connect (PrefixTuningConfig.with_use_residual_block false c) we w1 b1 w2 b2),
         s3.
  split; [now apply init_res_connect_from with (s1 := s1) (s2 := s2)|].
  split; [now apply init_res_connect_from with (s1 := s1) (s2 := s2)|].
  assert (Heq : obj_res_connect (PrefixTuningConfig.with_use_residual_block false c) we w1 b1 w2 b2
                = with_use_res_block false (obj_res_connect c we w1 b1 w2 b2)) by reflexivity.
  split; [exact Heq|]. rewrite Heq.
  repeat (split; [reflexivity|]).
  intros prefix. now apply forward_res_connect_any_block.
Qed.

(** C10. With [prefix_projection] set outside inference mode and
    [use_residual_connect] true, the value of [encoder_hidden_size] takes no
    part in construction or in [forward]: for every value of the field,
    [None] included, the constructor succeeds and returns one and the same
    object.  That object holds an embedding table of [num_virtual_tokens]
    rows and [token_dim] columns, a stage A that is one linear map
    [token_dim -> token_dim], a stage B that is tanh followed by a linear
    map [token_dim -> 2*num_layers*token_dim], each with a weight and a bias
    of the sizes those widths require, and no [transform]; no size of it
    is the hidden size.  On in-range indices of shape
    [(batch, num_virtual_tokens)] its [forward] returns a tensor of shape
    [(batch, num_virtual_tokens, 2*num_layers*token_dim)], which is stage B
    applied to the sum of stage A's output and the embedding. *)
Theorem residual_connect_ignores_hidden_size (c : Config) (s : seed) :
  PrefixTuningConfig.prefix_projection c = true ->
  PrefixTuningConfig.inference_mode c = false ->
  PrefixTuningConfig.use_residual_connect c = true ->
  exists self s' l1 l2,
    init c s = (inr self, s')
    /\ (forall h, init (PrefixTuningConfig.with_encoder_hidden_size h c) s = (inr self, s'))
    /\ num_embeddings (embedding self) = PrefixTuningConfig.num_virtual_tokens c
    /\ embedding_dim (embedding self) = PrefixTuningConfig.token_dim c
    /\ length (emb_weight (embedding self))
       = PrefixTuningConfig.num_virtual_tokens c * PrefixTuningConfig.token_dim c
    /\ transform_1 self = Some (Single (Linear_ l1))
    /\ in_features l1 = PrefixTuningConfig.token_dim c
    /\ out_features l1 = PrefixTuningConfig.token_dim c
    /\ length (lin_weight l1) = PrefixTuningConfig.token_dim c * PrefixTuningConfig.token_dim c
    /\ length (lin_bias l1) = PrefixTuningConfig.token_dim c
    /\ transform_2 self = Some (Sequential [Tanh; Linear_ l2])
    /\ in_features l2 = PrefixTuningConfig.token_dim c
    /\ out_features l2
       = 2 * PrefixTuningConfig.num_layers c * PrefixTuningConfig.token_dim c
    /\ length (lin_weight l2)
       = 2 * PrefixTuningConfig.num_layers c * PrefixTuningConfig.token_dim c
         * PrefixTuningConfig.token_dim c
    /\ length (lin_bias l2)
       = 2 * PrefixTuningConfig.num_layers c * PrefixTuningConfig.token_dim c
    /\ transform self = None
    /\ forall batch prefix,
         shape prefix = [batch; PrefixTuningConfig.num_virtual_tokens c] ->
         wf prefix ->
         in_range (PrefixTuningConfig.num_virtual_tokens c) prefix ->
         exists y, fst (forward prefix self) = inr y
                   /\ shape y = [batch; PrefixTuningConfig.num_virtual_tokens c;
                                 2 * PrefixTuningConfig.num_layers c
                                 * PrefixTuningConfig.token_dim c]
                   /\ wf y
                   /\ fst (forward prefix self)
                      = (E <- Embedding_forward (embedding self) prefix ;;
                         a <- Linear_forward l1 E ;;
                         x <- tensor_add a E ;;
                         Linear_forward l2 (tensor_map s_tanh x)).
Proof.
  intros Hpp Hinf Hurc.
  destruct (res_connect_allocations_sized c s)
    as (we & w1 & b1 & w2 & b2 & s1 & s2 & s3 & He & H1 & H2
        & Hwe & Hw1 & Hb1 & Hw2 & Hb2).
  assert (Hinit : init c s = (inr (obj_res_connect c we w1 b1 w2 b2), s3))
    by (now apply init_res_connect_from with (s1 := s1) (s2 := s2)).
  assert (HW : out_width c
               = 2 * PrefixTuningConfig.num_layers c * PrefixTuningConfig.token_dim c)
    by (unfold out_width; lia).
  exists (obj_res_connect c we w1 b1 w2 b2), s3,
         (mkLinear (PrefixTuningConfig.token_dim c) (PrefixTuningConfig.token_dim c) w1 b1),
         (mkLinear (PrefixTuningConfig.token_dim c) (out_width c) w2 b2).
  split; [exact Hinit|]. split.
  { intros h.
    change (obj_res_connect c we w1 b1 w2 b2)
      with (obj_res_connect (PrefixTuningConfig.with_encoder_hidden_size h c) we w1 b1 w2 b2).
    now apply init_res_connect_from with (s1 := s1) (s2 := s2). }
  cbn [obj_res_connect embedding num_embeddings embedding_dim emb_weight
       transform_1 transform_2 transform in_features out_features lin_weight lin_bias].
  split; [reflexivity|]. split; [reflexivity|]. split; [exact Hwe|].
  split; [reflexivity|]. split; [reflexivity|]. split; [reflexivity|].
  split; [exact Hw1|]. split; [exact Hb1|].
  split; [reflexivity|]. split; [reflexivity|]. split; [exact HW|].
  split; [now rewrite <- HW|]. split; [now rewrite <- HW|].
  split; [reflexivity|].
  intros batch prefix Hs Hwf Hin.
  assert (Hmode : PrefixTuningConfig.prefix_projection c
                  && PrefixTuningConfig.inference_mode c = false)
    by (now rewrite Hpp, Hinf).
  destruct (forward_shape c s Hmode Hinit Hwf Hin) as (y & Hy & Hsy & Hwy).
  exists y. split; [exact Hy|]. split; [|split; [exact Hwy|]].
  - rewrite Hsy, Hs, HW. reflexivity.
  - rewrite forward_result.
    unfold obj_res_connect, stage_B;
      cbn [prefix_projection use_res_connect use_res_block embedding
           transform_1 transform_2 transform].
    rewrite Hpp, Hurc. cbn [orb].
    destruct (Embedding_forward _ prefix) as [e|E]; [reflexivity|].
    rewrite bind_inr. seq_step.
    destruct (Linear_forward _ E) as [e|a]; [reflexivity|].
    rewrite bind_inr.
    destruct (tensor_add a E) as [e|x]; [reflexivity|].
    rewrite bind_inr, bind_ret.
    destruct (Linear_forward _ (tensor_map s_tanh x)); reflexivity.
Qed.

(** C5. With [prefix_projection] set outside inference mode and both
    residual flags false, the constructed object holds the single
    sequential [transform] (linear [token_dim -> encoder_hidden_size], tanh,
    linear [encoder_hidden_size -> 2*num_layers*token_dim]) and no stage A
    or B; [forward] is that transform applied to the embedding lookup, and
    its result stays the same whatever is put in place of [transform_1] and
    [transform_2]: nothing is added on this path. *)
Theorem plain_projection_has_no_residual
  (c : Config) (s s' : seed) (self : PrefixEncoder R) :
  PrefixTuningConfig.prefix_projection c = true ->
  PrefixTuningConfig.inference_mode c = false ->
  PrefixTuningConfig.use_residual_connect c = false ->
  PrefixTuningConfig.use_residual_block c = false ->
  init c s = (inr self, s') ->
  exists h l1 l2,
    PrefixTuningConfig.encoder_hidden_size c = Some h
    /\ in_features l1 = PrefixTuningConfig.token_dim c /\ out_features l1 = h
    /\ in_features l2 = h
    /\ out_features l2 = 2 * PrefixTuningConfig.num_layers c * PrefixTuningConfig.token_dim c
    /\ transform self = Some (Sequential [Linear_ l1; Tanh; Linear_ l2])
    /\ transform_1 self = None /\ transform_2 self = None
    /\ forall prefix,
         fst (forward prefix self)
         = (E <- Embedding_forward (embedding self) prefix ;;
            y <- Linear_forward l1 E ;;
            Linear_forward l2 (tensor_map s_tanh y))
         /\ forall m1 m2,
              fst (forward prefix (with_residual_path m1 m2 self))
              = fst (forward prefix self).
Proof.
  intros Hpp Hinf Hurc Hurb Hinit.
  destruct (init_cases c s Hinit)
    as [(Hb & _)
       |[(_ & _ & Hurc' & _)
        |[(_ & _ & _ & Hurb' & _)
         |(_ & _ & _ & _ & h & we & w1 & b1 & w2 & b2 & Hh & ->)]]];
    [rewrite Hpp, Hinf in Hb; discriminate | congruence | congruence |].
  exists h, (mkLinear (PrefixTuningConfig.token_dim c) h w1 b1),
         (mkLinear h (out_width c) w2 b2).
  split; [exact Hh|]. repeat (split; [reflexivity|]).
  split; [unfold out_width; cbn; lia|]. repeat (split; [reflexivity|]).
  intros prefix. split.
  - rewrite forward_result. unfold obj_plain;
      cbn [prefix_projection use_res_connect use_res_block embedding transform].
    rewrite Hpp, Hurc, Hurb. cbn [orb].
    destruct (Embedding_forward _ prefix) as [e|E]; [reflexivity|].
    rewrite bind_inr. seq_step.
    destruct (Linear_forward _ E) as [e|y]; [reflexivity|].
    rewrite !bind_inr, bind_ret.
    destruct (Linear_forward _ (tensor_map s_tanh y)); reflexivity.
  - intros m1 m2. rewrite !forward_result.
    unfold with_residual_path, obj_plain;
      cbn [prefix_projection use_res_connect use_res_block embedding
           transform_1 transform_2 transform].
    rewrite Hpp, Hurc, Hurb. reflexivity.
Qed.

(** C2. With [prefix_projection] set outside inference mode and
    [use_residual_connect] or [use_residual_block] true, on every in-range
    index tensor [forward] looks up the embeddings [E], applies stage A
    ([transform_1]) to them, adds the result [a] to [E] element by element,
    and returns stage B ([transform_2]) applied to that sum [x].  When
    stage A returns its input, the sum is [E + E], twice the embedding. *)
Theorem residual_sum_feeds_stage_B
  (c : Config) (s s' : seed) (self : PrefixEncoder R) (prefix : tensor Z) :
  PrefixTuningConfig.prefix_projection c = true ->
  PrefixTuningConfig.inference_mode c = false ->
  PrefixTuningConfig.use_residual_connect c = true
  \/ PrefixTuningConfig.use_residual_block c = true ->
  init c s = (inr self, s') ->
  wf prefix ->
  in_range (PrefixTuningConfig.num_virtual_tokens c) prefix ->
  exists A B E a x,
    transform_1 self = Some A /\ transform_2 self = Some B
    /\ Embedding_forward (embedding self) prefix = inr E
    /\ Module_forward A E = inr a
    /\ tensor_add a E = inr x
    /\ shape a = shape E /\ shape x = shape E
    /\ length (data x) = length (data E)
    /\ (forall k, k < length (data E) ->
          nth k (data x) s_zero = s_add (nth k (data a) s_zero) (nth k (data E) s_zero))
    /\ fst (forward prefix self) = Module_forward B x
    /\ (a = E -> data x = map (fun e => s_add e e) (data E))
    /\ (a = E -> (forall e, s_add e e = s_mul (s_of_nat 2) e) ->
         data x = map (s_mul (s_of_nat 2)) (data E)).
Proof.
  intros Hpp Hinf Hflag Hinit Hwf Hin.
  pose proof (init_residual c s Hpp Hinf Hflag Hinit) as Hres.
  destruct (forward_residual Hres Hwf Hin)
    as (A & B & E & a & x & y & H1 & H2 & HE & HsE & HwE & Ha & Hsa & Hwa
        & Hx & Hsx & Hwx & Hnth & Hy & Hsy & Hwy & Hfwd).
  assert (Hlen : length (data x) = length (data E))
    by (unfold wf in Hwx, HwE; now rewrite Hwx, Hsx, HwE).
  assert (Htwice : a = E -> data x = map (fun e => s_add e e) (data E)).
  { intros ->. apply nth_ext with (d := s_zero) (d' := s_add s_zero s_zero).
    - now rewrite length_map.
    - intros k Hk. rewrite (map_nth (fun e => s_add e e)).
      apply Hnth. unfold wf in HwE. now rewrite <- HwE, <- Hlen. }
  exists A, B, E, a, x.
  repeat (split; [assumption|]).
  split; [|split; [now rewrite Hfwd, Hy | split; [exact Htwice|]]].
  - intros k Hk. apply Hnth. unfold wf in HwE. now rewrite <- HwE.
  - intros HaE Hlaw. rewrite (Htwice HaE). apply map_ext. exact Hlaw.
Qed.

(** C7, as the code has it.  [forward] checks neither the rank nor the
    shape of the index tensor.  On an object built from a configuration
    that does not set [prefix_projection] together with [inference_mode],
    every index tensor whose values are in range, of whatever shape, gets a
    result: a tensor of the shape of the indices followed by the output
    width [num_layers*2*token_dim]. *)
Theorem forward_accepts_any_index_shape
  (c : Config) (s s' : seed) (self : PrefixEncoder R) (prefix : tensor Z) :
  PrefixTuningConfig.prefix_projection c && PrefixTuningConfig.inference_mode c = false ->
  init c s = (inr self, s') ->
  wf prefix ->
  in_range (PrefixTuningConfig.num_virtual_tokens c) prefix ->
  exists y, fst (forward prefix self) = inr y
            /\ shape y = shape prefix ++ [PrefixTuningConfig.num_layers c * 2
                                          * PrefixTuningConfig.token_dim c]
            /\ wf y.
Proof.
  intros Hmode Hinit Hwf Hin.
  destruct (forward_shape c s Hmode Hinit Hwf Hin) as (y & Hy & Hsy & Hwy).
  exists y. repeat split; assumption.
Qed.

(** * Further properties of the constructor and of [forward] *)

Ltac run_in H Hinit := rewrite (bind_run _ _ _ H) in Hinit; cbv beta iota zeta in Hinit.

(** X4. The sizes of the learnable parameters of a constructed object, in
    registration order, for each of the four topologies: the embedding
    table, then weight and bias of every linear layer (and of the
    normalisation in the residual block).  The table has [token_dim]
    columns in the three projection topologies and [num_layers*2*token_dim]
    columns otherwise. *)
Theorem parameter_sizes (c : Config) (s s' : seed) (self : PrefixEncoder R) :
  init c s = (inr self, s') ->
  let d := PrefixTuningConfig.token_dim c in
  let n := PrefixTuningConfig.num_virtual_tokens c in
  let W := PrefixTuningConfig.num_layers c * 2 * PrefixTuningConfig.token_dim c in
  (PrefixTuningConfig.prefix_projection c && negb (PrefixTuningConfig.inference_mode c) = false ->
   map (@length R) (parameters self) = [n * W])
  /\ (PrefixTuningConfig.prefix_projection c && negb (PrefixTuningConfig.inference_mode c) = true ->
      PrefixTuningConfig.use_residual_connect c = true ->
      map (@length R) (parameters self) = [n * d; d * d; d; W * d; W])
  /\ (PrefixTuningConfig.prefix_projection c && negb (PrefixTuningConfig.inference_mode c) = true ->
      PrefixTuningConfig.use_residual_connect c = false ->
      PrefixTuningConfig.use_residual_block c = true ->
      exists h, PrefixTuningConfig.encoder_hidden_size c = Some h
                /\ map (@length R) (parameters self)
                   = [n * d; h * d; h; d * h; d; d; d; W * d; W])
  /\ (PrefixTuningConfig.prefix_projection c && negb (PrefixTuningConfig.inference_mode c) = true ->
      PrefixTuningConfig.use_residual_connect c = false ->
      PrefixTuningConfig.use_residual_block c = false ->
      exists h, PrefixTuningConfig.encoder_hidden_size c = Some h
                /\ map (@length R) (parameters self) = [n * d; h * d; h; W * h; W]).
Proof.
  intros Hinit d n W. unfold PrefixEncoder_init in Hinit.
  fold d n W in Hinit.
  destruct (PrefixTuningConfig.prefix_projection c
            && negb (PrefixTuningConfig.inference_mode c)) eqn:Hb.
  - destruct (Embedding_init_run n d s) as (we & s1 & He & Hwe). run_in He Hinit.
    split; [discriminate|].
    destruct (PrefixTuningConfig.use_residual_connect c) eqn:Hurc.
    + destruct (Linear_init_run d d s1) as (w1 & b1 & s2 & H1 & Hw1 & Hb1). run_in H1 Hinit.
      destruct (Linear_init_run d W s2) as (w2 & b2 & s3 & H2 & Hw2 & Hb2). run_in H2 Hinit.
      injection Hinit as <- _.
      split; [|split; intros; discriminate].
      intros _ _. cbn. now rewrite Hwe, Hw1, Hb1, Hw2, Hb2.
    + split; [intros; discriminate|].
      destruct (PrefixTuningConfig.encoder_hidden_size c) as [h|] eqn:Hh.
      * destruct (PrefixTuningConfig.use_residual_block c) eqn:Hurb.
        { destruct (Linear_init_run d h s1) as (w1 & b1 & s2 & H1 & Hw1 & Hb1). run_in H1 Hinit.
          destruct (Linear_init_run h d s2) as (w2 & b2 & s3 & H2 & Hw2 & Hb2). run_in H2 Hinit.
          assert (Hln : LayerNorm_init (seed := seed) d s3
                        = (inr (mkLayerNorm d (repeat s_one d) (repeat s_zero d)), s3))
            by reflexivity.
          run_in Hln Hinit.
          destruct (Linear_init_run d W s3) as (w3 & b3 & s4 & H3 & Hw3 & Hb3). run_in H3 Hinit.
          injection Hinit as <- _.
          split; [|intros; discriminate].
          intros _ _ _. exists h. split; [reflexivity|]. cbn.
          now rewrite Hwe, Hw1, Hb1, Hw2, Hb2, Hw3, Hb3, !repeat_length. }
        { destruct (Linear_init_run d h s1) as (w1 & b1 & s2 & H1 & Hw1 & Hb1). run_in H1 Hinit.
          destruct (Linear_init_run h W s2) as (w2 & b2 & s3 & H2 & Hw2 & Hb2). run_in H2 Hinit.
          injection Hinit as <- _.
          split; [intros; discriminate|].
          intros _ _ _. exists h. split; [reflexivity|]. cbn.
          now rewrite Hwe, Hw1, Hb1, Hw2, Hb2. }
      * exfalso. destruct (PrefixTuningConfig.use_residual_block c); simpl in Hinit;
          discriminate.
  - destruct (Embedding_init_run n W s) as (we & s1 & He & Hwe). run_in He Hinit.
    injection Hinit as <- _.
    split; [|repeat split; intros; discriminate].
    intros _. cbn. now rewrite Hwe.
Qed.

(** X1. Without [prefix_projection] the constructor reads neither the
    residual flags, nor [encoder_hidden_size], nor [inference_mode]: two
    configurations that agree on the three sizes get the same embedding
    table from the same generator state, no projection stage, and
    [forward] is the bare embedding lookup on every input. *)
Theorem no_projection_ignores_other_fields (c c' : Config) (s : seed) :
  PrefixTuningConfig.prefix_projection c = false ->
  PrefixTuningConfig.prefix_projection c' = false ->
  PrefixTuningConfig.token_dim c' = PrefixTuningConfig.token_dim c ->
  PrefixTuningConfig.num_layers c' = PrefixTuningConfig.num_layers c ->
  PrefixTuningConfig.num_virtual_tokens c' = PrefixTuningConfig.num_virtual_tokens c ->
  exists we s',
    init c s = (inr (obj_direct c we), s')
    /\ init c' s = (inr (obj_direct c' we), s')
    /\ embedding (obj_direct c' we) = embedding (obj_direct c we)
    /\ forall prefix,
         fst (forward prefix (obj_direct c we))
         = Embedding_forward (mkEmbedding (PrefixTuningConfig.num_virtual_tokens c)
                                          (out_width c) we) prefix
         /\ fst (forward prefix (obj_direct c' we)) = fst (forward prefix (obj_direct c we)).
Proof.
  intros Hpp Hpp' Hd HL Hn.
  destruct (Embedding_init_run (PrefixTuningConfig.num_virtual_tokens c) (out_width c) s)
    as (we & s1 & He & _).
  assert (HW : out_width c' = out_width c) by (unfold out_width; now rewrite Hd, HL).
  assert (Hemb : embedding (obj_direct c' we) = embedding (obj_direct c we))
    by (unfold obj_direct; cbn [embedding]; now rewrite Hn, HW).
  exists we, s1. split; [|split; [|split; [exact Hemb|]]].
  - unfold PrefixEncoder_init. rewrite Hpp. cbn [andb]. cbv beta iota zeta.
    unfold out_width in He. run_with He. unfold obj_direct, out_width. now rewrite Hpp.
  - unfold PrefixEncoder_init. rewrite Hpp'. cbn [andb]. cbv beta iota zeta.
    unfold out_width in He. rewrite Hd, HL, Hn. run_with He.
    unfold obj_direct, out_width. now rewrite Hpp', Hd, HL, Hn.
  - intros prefix. rewrite !forward_result, Hemb.
    unfold obj_direct; cbn [prefix_projection embedding]. now rewrite Hpp, Hpp'.
Qed.

(** X5. An object constructed with [prefix_projection] set in inference
    mode holds the wide embedding table and no projection stage, and its
    [forward] returns on no in-range input: it raises [AttributeError] on
    [transform_1] when a residual flag is set and on [transform]
    otherwise. *)
Theorem forward_unusable_after_inference_construction (c : Config) (s : seed) :
  PrefixTuningConfig.prefix_projection c = true ->
  PrefixTuningConfig.inference_mode c = true ->
  exists self s',
    init c s = (inr self, s')
    /\ transform_1 self = None /\ transform_2 self = None /\ transform self = None
    /\ embedding_dim (embedding self)
       = PrefixTuningConfig.num_layers c * 2 * PrefixTuningConfig.token_dim c
    /\ forall prefix,
         in_range (PrefixTuningConfig.num_virtual_tokens c) prefix ->
         fst (forward prefix self)
         = inl (AttributeError
                  (if PrefixTuningConfig.use_residual_connect c
                      || PrefixTuningConfig.use_residual_block c
                   then "transform_1" else "transform")).
Proof.
  intros Hpp Hinf.
  destruct (init_direct c s) as (we & s1 & H); [now rewrite Hpp, Hinf|].
  exists (obj_direct c we), s1. split; [exact H|].
  repeat (split; [reflexivity|]).
  intros prefix Hin.
  now apply forward_inference_projection_raises with (c := c) (s := s) (s' := s1).
Qed.

(** X6. The residual-connect topology, layer by layer: stage A is one
    linear map [token_dim -> token_dim], stage B is tanh followed by a
    linear map [token_dim -> num_layers*2*token_dim], and [forward] is
    [Linear2 (tanh (Linear1 E + E))] on the embedding lookup [E]: the
    sum is taken before the activation. *)
Theorem residual_connect_forward (c : Config) (s s' : seed) (self : PrefixEncoder R) :
  PrefixTuningConfig.prefix_projection c = true ->
  PrefixTuningConfig.inference_mode c = false ->
  PrefixTuningConfig.use_residual_connect c = true ->
  init c s = (inr self, s') ->
  exists l1 l2,
    in_features l1 = PrefixTuningConfig.token_dim c
    /\ out_features l1 = PrefixTuningConfig.token_dim c
    /\ in_features l2 = PrefixTuningConfig.token_dim c
    /\ out_features l2 = PrefixTuningConfig.num_layers c * 2 * PrefixTuningConfig.token_dim c
    /\ transform_1 self = Some (Single (Linear_ l1))
    /\ transform_2 self = Some (Sequential [Tanh; Linear_ l2])
    /\ transform self = None
    /\ forall prefix,
         fst (forward prefix self)
         = (E <- Embedding_forward (embedding self) prefix ;;
            a <- Linear_forward l1 E ;;
            x <- tensor_add a E ;;
            Linear_forward l2 (tensor_map s_tanh x)).
Proof.
  intros Hpp Hinf Hurc Hinit.
  destruct (init_res_connect c s Hpp Hinf Hurc) as (we & w1 & b1 & w2 & b2 & s1 & H).
  rewrite H in Hinit. injection Hinit as <- _.
  exists (mkLinear (PrefixTuningConfig.token_dim c) (PrefixTuningConfig.token_dim c) w1 b1),
         (mkLinear (PrefixTuningConfig.token_dim c) (out_width c) w2 b2).
  repeat (split; [reflexivity|]).
  intros prefix. rewrite forward_result.
  unfold obj_res_connect, stage_B;
    cbn [prefix_projection use_res_connect use_res_block embedding
         transform_1 transform_2 transform].
  rewrite Hpp, Hurc. cbn [orb].
  destruct (Embedding_forward _ prefix) as [e|E]; [reflexivity|].
  rewrite bind_inr. seq_step.
  destruct (Linear_forward _ E) as [e|a]; [reflexivity|].
  rewrite bind_inr.
  destruct (tensor_add a E) as [e|x]; [reflexivity|].
  rewrite bind_inr, bind_ret.
  destruct (Linear_forward _ (tensor_map s_tanh x)); reflexivity.
Qed.

(** X7. The residual-block topology, layer by layer: stage A is linear
    [token_dim -> encoder_hidden_size], ReLU, linear
    [encoder_hidden_size -> token_dim] and a normalisation over the last
    dimension whose scale starts at one and whose shift starts at zero;
    [forward] normalises stage A's output before adding the embedding
    (the sum itself is not normalised), then applies tanh and the final
    linear map. *)
Theorem residual_block_forward (c : Config) (s s' : seed) (self : PrefixEncoder R) :
  PrefixTuningConfig.prefix_projection c = true ->
  PrefixTuningConfig.inference_mode c = false ->
  PrefixTuningConfig.use_residual_connect c = false ->
  PrefixTuningConfig.use_residual_block c = true ->
  init c s = (inr self, s') ->
  exists h l1 l2 ln l3,
    PrefixTuningConfig.encoder_hidden_size c = Some h
    /\ in_features l1 = PrefixTuningConfig.token_dim c /\ out_features l1 = h
    /\ in_features l2 = h /\ out_features l2 = PrefixTuningConfig.token_dim c
    /\ normalized_shape ln = PrefixTuningConfig.token_dim c
    /\ ln_weight ln = repeat s_one (PrefixTuningConfig.token_dim c)
    /\ ln_bias ln = repeat s_zero (PrefixTuningConfig.token_dim c)
    /\ in_features l3 = PrefixTuningConfig.token_dim c
    /\ out_features l3 = PrefixTuningConfig.num_layers c * 2 * PrefixTuningConfig.token_dim c
    /\ transform_1 self = Some (Sequential [Linear_ l1; ReLU; Linear_ l2; LayerNorm_ ln])
    /\ transform_2 self = Some (Sequential [Tanh; Linear_ l3])
    /\ transform self = None
    /\ forall prefix,
         fst (forward prefix self)
         = (E <- Embedding_forward (embedding self) prefix ;;
            y1 <- Linear_forward l1 E ;;
            y2 <- Linear_forward l2 (tensor_map s_relu y1) ;;
            a <- LayerNorm_forward ln y2 ;;
            x <- tensor_add a E ;;
            Linear_forward l3 (tensor_map s_tanh x)).
Proof.
  intros Hpp Hinf Hurc Hurb Hinit.
  destruct (PrefixTuningConfig.encoder_hidden_size c) as [h|] eqn:Hh.
  2:{ destruct (init_hidden_missing c s Hpp Hinf Hurc Hh) as (s1 & H).
      rewrite H in Hinit. discriminate. }
  destruct (init_res_block c s Hpp Hinf Hurc Hurb Hh)
    as (we & w1 & b1 & w2 & b2 & w3 & b3 & s1 & H).
  rewrite H in Hinit. injection Hinit as <- _.
  exists h,
         (mkLinear (PrefixTuningConfig.token_dim c) h w1 b1),
         (mkLinear h (PrefixTuningConfig.token_dim c) w2 b2),
         (mkLayerNorm (PrefixTuningConfig.token_dim c)
                      (repeat s_one (PrefixTuningConfig.token_dim c))
                      (repeat s_zero (PrefixTuningConfig.token_dim c))),
         (mkLinear (PrefixTuningConfig.token_dim c) (out_width c) w3 b3).
  repeat (split; [reflexivity|]).
  intros prefix. rewrite forward_result.
  unfold obj_res_block, stage_B;
    cbn [prefix_projection use_res_connect use_res_block embedding
         transform_1 transform_2 transform].
  rewrite Hpp, Hurc, Hurb. cbn [orb].
  destruct (Embedding_forward _ prefix) as [e|E]; [reflexivity|].
  rewrite bind_inr. seq_step.
  destruct (Linear_forward _ E) as [e|y1]; [reflexivity|].
  rewrite !bind_inr, bind_ret.
  destruct (Linear_forward _ (tensor_map s_relu y1)) as [e|y2]; [reflexivity|].
  rewrite !bind_inr.
  destruct (LayerNorm_forward _ y2) as [e|a]; [reflexivity|].
  rewrite !bind_inr. cbn [bind ret Monad_result].
  destruct (tensor_add a E) as [e|x]; [reflexivity|].
  destruct (Linear_forward _ (tensor_map s_tanh x)); reflexivity.
Qed.

(** ** Rows of a row-major buffer *)

Lemma map_nth_seq_self {A : Type} (l : list A) (d : A) :
  map (fun j => nth j l d) (seq 0 (length l)) = l.
Proof.
  induction l as [|a l IH]; [reflexivity|].
  cbn [length seq map nth]. f_equal.
  rewrite <- seq_shift, map_map. exact IH.
Qed.

Lemma seq_from (k m : nat) : seq k m = map (Nat.add k) (seq 0 m).
Proof.
  revert k. induction m as [|m IH]; intros k; [reflexivity|].
  cbn [seq map]. rewrite Nat.add_0_r. f_equal.
  rewrite (IH (S k)), (IH 1), map_map. apply map_ext. intros i. lia.
Qed.

Lemma row_concat {A : Type} (dflt : A) (k : nat) (rows : list (list A)) :
  Forall (fun r => length r = k) rows ->
  forall r, r < length rows -> row dflt k (concat rows) r = nth r rows [].
Proof.
  induction 1 as [|r0 rest Hr0 _ IH]; intros r Hr; [simpl in Hr; lia|].
  destruct r as [|r]; cbn [concat nth].
  - unfold row. transitivity (map (fun j => nth j r0 dflt) (seq 0 k)).
    + apply map_ext_in. intros j Hj. apply in_seq in Hj.
      cbn [Nat.mul Nat.add]. apply app_nth1. lia.
    + rewrite <- Hr0. apply map_nth_seq_self.
  - rewrite <- (IH r) by (simpl in Hr; lia). unfold row.
    apply map_ext. intros j.
    replace (S r * k + j) with (length r0 + (r * k + j)) by (rewrite Hr0; lia).
    apply app_nth2_plus.
Qed.

Lemma flat_map_rows {A B : Type} (dflt : A) (k : nat) (h : list A -> list B)
      (rows : list (list A)) :
  Forall (fun r => length r = k) rows ->
  flat_map (fun r => h (row dflt k (concat rows) r)) (seq 0 (length rows))
  = concat (map h rows).
Proof.
  intros Hrows. rewrite flat_map_concat_map. f_equal.
  transitivity (map h (map (fun r => nth r rows []) (seq 0 (length rows)))).
  - rewrite map_map. apply map_ext_in. intros r Hr. apply in_seq in Hr.
    now rewrite (row_concat dflt Hrows) by lia.
  - now rewrite map_nth_seq_self.
Qed.

Lemma add_rows (fa : list R -> list R) (k : nat) (rows : list (list R)) :
  (forall r, length r = k -> length (fa r) = k) ->
  Forall (fun r => length r = k) rows ->
  map (fun i => s_add (nth i (concat (map fa rows)) s_zero) (nth i (concat rows) s_zero))
      (seq 0 (length rows * k))
  = concat (map (residual_row fa k) rows).
Proof.
  intros Hfa. induction 1 as [|r0 rest Hr0 _ IH]; [reflexivity|].
  cbn [length Nat.mul map concat]. rewrite seq_app, map_app. f_equal.
  - apply map_ext_in. intros j Hj. apply in_seq in Hj.
    rewrite !app_nth1 by (rewrite ?Hfa; lia). reflexivity.
  - rewrite <- IH. cbn [Nat.add]. rewrite seq_from, map_map.
    apply map_ext. intros i.
    rewrite <- (Hfa r0 Hr0) at 1. rewrite app_nth2_plus.
    rewrite <- Hr0 at 1. now rewrite app_nth2_plus.
Qed.

Lemma tensor_add_same_shape_data (a b : tensor R) :
  shape a = shape b ->
  tensor_add a b
  = inr (mkTensor (shape b)
           (map (fun k => s_add (nth k (data a) s_zero) (nth k (data b) s_zero))
                (seq 0 (numel (shape b))))).
Proof.
  intros Hs. unfold tensor_add. rewrite Hs, broadcast_rev_same.
  cbn [ret Monad_result]. rewrite rev_involutive. do 2 f_equal.
  apply map_ext_in. intros k Hk. apply in_seq in Hk.
  rewrite !bindex_same by (rewrite numel_rev; lia). reflexivity.
Qed.

(** ** Layers act row by row *)

Lemma rowwise_Linear (l : Linear R) :
  rowwise (Linear_forward l) (in_features l) (out_features l) (Linear_row l).
Proof.
  split.
  - intros r _. unfold Linear_row. now rewrite length_map, length_seq.
  - intros lead rows Hrows Hlen. unfold Linear_forward. cbn [shape data].
    rewrite split_last_app, Nat.eqb_refl. cbn [ret Monad_result].
    do 2 f_equal. rewrite <- Hlen. now apply flat_map_rows.
Qed.

Lemma rowwise_LayerNorm (ln : LayerNorm R) :
  rowwise (LayerNorm_forward ln) (normalized_shape ln) (normalized_shape ln)
          (LayerNorm_row ln).
Proof.
  split.
  - intros r _. unfold LayerNorm_row. now rewrite length_map, length_seq.
  - intros lead rows Hrows Hlen. unfold LayerNorm_forward. cbn [shape data].
    rewrite split_last_app, Nat.eqb_refl. cbn [ret Monad_result].
    do 2 f_equal. rewrite <- Hlen. now apply flat_map_rows.
Qed.

Lemma rowwise_map (g : R -> R) (k : nat) :
  rowwise (fun x => ret (tensor_map g x)) k k (map g).
Proof.
  split.
  - intros r Hr. now rewrite length_map.
  - intros lead rows _ _. unfold tensor_map. cbn [shape data ret Monad_result].
    now rewrite concat_map.
Qed.

Lemma rowwise_ret (k : nat) :
  rowwise (fun x : tensor R => (ret x : result (tensor R))) k k (fun r => r).
Proof.
  split; [auto|]. intros lead rows _ _. cbn [ret Monad_result]. now rewrite map_id.
Qed.

Lemma Forall_length_map (f : list R -> list R) (k k' : nat) (rows : list (list R)) :
  (forall r, length r = k -> length (f r) = k') ->
  Forall (fun r => length r = k) rows ->
  Forall (fun r => length r = k') (map f rows).
Proof.
  intros Hf Hrows. apply Forall_map. revert Hrows. apply Forall_impl. exact Hf.
Qed.

Lemma rowwise_bind (F G : tensor R -> result (tensor R)) (k k' k'' : nat)
      (f g : list R -> list R) :
  rowwise F k k' f -> rowwise G k' k'' g ->
  rowwise (fun x => y <- F x ;; G y) k k'' (fun r => g (f r)).
Proof.
  intros [Hf HF] [Hg HG]. split.
  - intros r Hr. apply Hg, Hf, Hr.
  - intros lead rows Hrows Hlen. rewrite (HF lead rows Hrows Hlen), bind_inr.
    rewrite (HG lead (map f rows)).
    + now rewrite map_map.
    + now apply Forall_length_map with (k := k).
    + now rewrite length_map.
Qed.

(** Stage A, the addition of its input, then stage B. *)
Lemma rowwise_residual (A B : tensor R -> result (tensor R)) (k k' : nat)
      (fa fb : list R -> list R) :
  rowwise A k k fa -> rowwise B k k' fb ->
  rowwise (fun E => a <- A E ;; x <- tensor_add a E ;; B x) k k'
          (fun r => fb (residual_row fa k r)).
Proof.
  intros [Hfa HA] [Hfb HB]. split.
  - intros r Hr. apply Hfb. unfold residual_row. now rewrite length_map, length_seq.
  - intros lead rows Hrows Hlen. rewrite (HA lead rows Hrows Hlen), bind_inr.
    rewrite tensor_add_same_shape_data by reflexivity. rewrite bind_inr.
    cbn [shape data]. rewrite numel_app, <- Hlen, (add_rows fa Hfa Hrows).
    rewrite (HB lead (map (residual_row fa k) rows)).
    + now rewrite map_map.
    + apply Forall_length_map with (k := k); [|exact Hrows].
      intros r _. unfold residual_row. now rewrite length_map, length_seq.
    + now rewrite length_map.
Qed.

Lemma rowwise_ext (F G : tensor R -> result (tensor R)) (k k' : nat) (f : list R -> list R) :
  (forall x, G x = F x) -> rowwise F k k' f -> rowwise G k k' f.
Proof.
  intros Hext [Hf HF]. split; [exact Hf|].
  intros lead rows Hrows Hlen. rewrite Hext. now apply HF.
Qed.

(** ** The stages act row by row *)

Lemma rowwise_stage_A_connect (d : nat) (w b : list R) :
  exists f, rowwise (Module_forward (Single (Linear_ (mkLinear d d w b)))) d d f.
Proof.
  eexists. exact (rowwise_Linear (mkLinear d d w b)).
Qed.

Lemma rowwise_stage_A_block (d h : nat) (w1 b1 w2 b2 g bt : list R) :
  exists f, rowwise (Module_forward (Sequential [Linear_ (mkLinear d h w1 b1); ReLU;
                                                 Linear_ (mkLinear h d w2 b2);
                                                 LayerNorm_ (mkLayerNorm d g bt)])) d d f.
Proof.
  eexists.
  exact (rowwise_bind (rowwise_Linear (mkLinear d h w1 b1))
           (rowwise_bind (rowwise_map s_relu h)
              (rowwise_bind (rowwise_Linear (mkLinear h d w2 b2))
                 (rowwise_bind (rowwise_LayerNorm (mkLayerNorm d g bt))
                               (rowwise_ret d))))).
Qed.

Lemma rowwise_stage_B (c : Config) (w b : list R) :
  exists f, rowwise (Module_forward (stage_B c w b))
                    (PrefixTuningConfig.token_dim c) (out_width c) f.
Proof.
  eexists.
  exact (rowwise_bind (rowwise_map s_tanh (PrefixTuningConfig.token_dim c))
           (rowwise_bind
              (rowwise_Linear (mkLinear (PrefixTuningConfig.token_dim c) (out_width c) w b))
              (rowwise_ret (out_width c)))).
Qed.

Lemma rowwise_plain (d h o : nat) (w1 b1 w2 b2 : list R) :
  exists f, rowwise (Module_forward (Sequential [Linear_ (mkLinear d h w1 b1); Tanh;
                                                 Linear_ (mkLinear h o w2 b2)])) d o f.
Proof.
  eexists.
  exact (rowwise_bind (rowwise_Linear (mkLinear d h w1 b1))
           (rowwise_bind (rowwise_map s_tanh h)
              (rowwise_bind (rowwise_Linear (mkLinear h o w2 b2)) (rowwise_ret o)))).
Qed.

(** ** The lookup, row by row *)

Lemma lookup_rows_map (e : Embedding R) (l : list Z) :
  Forall (fun i => (0 <= i < Z.of_nat (num_embeddings e))%Z) l ->
  mapM (fun i => if index_ok (num_embeddings e) i
                 then ret (row s_zero (embedding_dim e) (emb_weight e) (Z.to_nat i))
                 else raise IndexError) l
  = inr (map (fun i => row s_zero (embedding_dim e) (emb_weight e) (Z.to_nat i)) l).
Proof.
  induction 1 as [|i l Hi _ IH]; [reflexivity|].
  assert (Hok : index_ok (num_embeddings e) i = true).
  { unfold index_ok. apply andb_true_iff. split; [apply Z.leb_le | apply Z.ltb_lt]; lia. }
  now rewrite mapM_cons, Hok, IH.
Qed.

Lemma Embedding_forward_rows (e : Embedding R) (idx : tensor Z) :
  in_range (num_embeddings e) idx ->
  Embedding_forward e idx
  = inr (mkTensor (shape idx ++ [embedding_dim e])
           (concat (map (fun i => row s_zero (embedding_dim e) (emb_weight e) (Z.to_nat i))
                        (data idx)))).
Proof.
  intros Hin. unfold Embedding_forward. now rewrite (lookup_rows_map e Hin).
Qed.

(** [forward] as the lookup followed by a row-wise map gives, for every
    index, the vector that index alone would give. *)
Lemma per_index_from_rowwise
      (P : tensor R -> result (tensor R)) (k k' : nat) (f : list R -> list R)
      (e : Embedding R) (idx : tensor Z) :
  embedding_dim e = k -> rowwise P k k' f ->
  wf idx -> in_range (num_embeddings e) idx ->
  (E <- Embedding_forward e idx ;; P E)
  = inr (mkTensor (shape idx ++ [k'])
           (flat_map (fun i => f (row s_zero k (emb_weight e) (Z.to_nat i))) (data idx))).
Proof.
  intros Hk [Hf HP] Hwf Hin. rewrite (Embedding_forward_rows e Hin), bind_inr, Hk.
  rewrite HP.
  - now rewrite map_map, flat_map_concat_map.
  - apply Forall_map, Forall_forall. intros i _. apply length_row.
  - rewrite length_map. exact Hwf.
Qed.

(** Every object that [forward] can run on has a map from an index to a
    vector that [forward] applies index by index. *)
Lemma forward_flat_map (c : Config) (s s' : seed) (self : PrefixEncoder R) :
  PrefixTuningConfig.prefix_projection c && PrefixTuningConfig.inference_mode c = false ->
  init c s = (inr self, s') ->
  exists tok : Z -> list R,
    forall prefix,
      wf prefix -> in_range (PrefixTuningConfig.num_virtual_tokens c) prefix ->
      fst (forward prefix self)
      = inr (mkTensor (shape prefix ++ [out_width c]) (flat_map tok (data prefix))).
Proof.
  intros Hmode Hinit.
  destruct (init_cases c s Hinit)
    as [(Hb & we & ->)
       |[(Hpp & Hinf & Hurc & we & w1 & b1 & w2 & b2 & ->)
        |[(Hpp & Hinf & Hurc & Hurb & h & we & w1 & b1 & w2 & b2 & w3 & b3 & Hh & ->)
         |(Hpp & Hinf & Hurc & Hurb & h & we & w1 & b1 & w2 & b2 & Hh & ->)]]].
  - assert (Hpp : PrefixTuningConfig.prefix_projection c = false).
    { destruct (PrefixTuningConfig.prefix_projection c); [|reflexivity].
      destruct (PrefixTuningConfig.inference_mode c); discriminate. }
    exists (fun i => row s_zero (out_width c) we (Z.to_nat i)).
    intros prefix Hwf Hin. rewrite forward_result.
    unfold obj_direct; cbn [prefix_projection embedding]. rewrite Hpp.
    rewrite Embedding_forward_rows by exact Hin.
    cbn [embedding_dim emb_weight]. now rewrite flat_map_concat_map.
  - destruct (rowwise_stage_A_connect (PrefixTuningConfig.token_dim c) w1 b1) as (fa & HA).
    destruct (rowwise_stage_B c w2 b2) as (fb & HB).
    exists (fun i => fb (residual_row fa (PrefixTuningConfig.token_dim c)
                           (row s_zero (PrefixTuningConfig.token_dim c) we (Z.to_nat i)))).
    intros prefix Hwf Hin. rewrite forward_result.
    unfold obj_res_connect;
      cbn [prefix_projection use_res_connect use_res_block embedding
           transform_1 transform_2 transform].
    rewrite Hpp, Hurc. cbn [orb].
    apply (per_index_from_rowwise
             (mkEmbedding (PrefixTuningConfig.num_virtual_tokens c)
                          (PrefixTuningConfig.token_dim c) we)
             eq_refl (rowwise_residual HA HB) Hwf Hin).
  - destruct (rowwise_stage_A_block (PrefixTuningConfig.token_dim c) h w1 b1 w2 b2
                (repeat s_one (PrefixTuningConfig.token_dim c))
                (repeat s_zero (PrefixTuningConfig.token_dim c))) as (fa & HA).
    destruct (rowwise_stage_B c w3 b3) as (fb & HB).
    exists (fun i => fb (residual_row fa (PrefixTuningConfig.token_dim c)
                           (row s_zero (PrefixTuningConfig.token_dim c) we (Z.to_nat i)))).
    intros prefix Hwf Hin. rewrite forward_result.
    unfold obj_res_block;
      cbn [prefix_projection use_res_connect use_res_block embedding
           transform_1 transform_2 transform].
    rewrite Hpp, Hurc, Hurb. cbn [orb].
    apply (per_index_from_rowwise
             (mkEmbedding (PrefixTuningConfig.num_virtual_tokens c)
                          (PrefixTuningConfig.token_dim c) we)
             eq_refl (rowwise_residual HA HB) Hwf Hin).
  - destruct (rowwise_plain (PrefixTuningConfig.token_dim c) h (out_width c) w1 b1 w2 b2)
      as (f & HP).
    exists (fun i => f (row s_zero (PrefixTuningConfig.token_dim c) we (Z.to_nat i))).
    intros prefix Hwf Hin. rewrite forward_result.
    unfold obj_plain;
      cbn [prefix_projection use_res_connect use_res_block embedding
           transform_1 transform_2 transform].
    rewrite Hpp, Hurc, Hurb. cbn [orb].
    apply (per_index_from_rowwise
             (mkEmbedding (PrefixTuningConfig.num_virtual_tokens c)
                          (PrefixTuningConfig.token_dim c) we)
             eq_refl HP Hwf Hin).
Qed.

(** X3. [forward] treats every index on its own.  On an object built from
    a configuration that does not set [prefix_projection] together with
    [inference_mode], the result on an in-range index tensor is the
    concatenation, in index order, of the vectors [forward] returns for
    each of its indices taken alone (as a rank-0 tensor): no value of the
    result depends on another index of the batch or on the position of
    the index. *)
Theorem forward_is_per_index (c : Config) (s s' : seed) (self : PrefixEncoder R) :
  PrefixTuningConfig.prefix_projection c && PrefixTuningConfig.inference_mode c = false ->
  init c s = (inr self, s') ->
  exists tok : Z -> list R,
    (forall i, (0 <= i < Z.of_nat (PrefixTuningConfig.num_virtual_tokens c))%Z ->
       fst (forward (mkTensor [] [i]) self)
       = inr (mkTensor [PrefixTuningConfig.num_layers c * 2
                        * PrefixTuningConfig.token_dim c] (tok i)))
    /\ forall prefix,
         wf prefix -> in_range (PrefixTuningConfig.num_virtual_tokens c) prefix ->
         fst (forward prefix self)
         = inr (mkTensor (shape prefix ++ [PrefixTuningConfig.num_layers c * 2
                                           * PrefixTuningConfig.token_dim c])
                  (flat_map tok (data prefix))).
Proof.
  intros Hmode Hinit.
  destruct (forward_flat_map c s Hmode Hinit) as (tok & Htok).
  exists tok. split; [|exact Htok].
  intros i Hi.
  rewrite (Htok (mkTensor [] [i])).
  - cbn [shape data flat_map app]. now rewrite app_nil_r.
  - reflexivity.
  - unfold in_range. cbn [data]. now repeat constructor.
Qed.

(** ** The table as its rows *)

Lemma buffer_rows {A : Type} (k n : nat) :
  forall l : list A, length l = n * k ->
  exists rows, l = concat rows /\ Forall (fun r => length r = k) rows /\ length rows = n.
Proof.
  induction n as [|n IH]; intros l Hl.
  - exists []. destruct l; [auto | discriminate].
  - destruct (IH (skipn k l)) as (rows & Hrows & Hall & Hn).
    { rewrite length_skipn, Hl. simpl. lia. }
    exists (firstn k l :: rows). split; [|split].
    + cbn [concat]. now rewrite <- Hrows, firstn_skipn.
    + constructor; [|exact Hall]. rewrite length_firstn, Hl. simpl. lia.
    + simpl. now rewrite Hn.
Qed.

Lemma concat_rows_of_buffer {A : Type} (dflt : A) (k n : nat) (l : list A) :
  length l = n * k -> concat (map (row dflt k l) (seq 0 n)) = l.
Proof.
  intros Hl. destruct (buffer_rows k n l Hl) as (rows & -> & Hall & <-).
  rewrite <- flat_map_concat_map.
  transitivity (concat (map (fun r : list A => r) rows)).
  - exact (flat_map_rows dflt (fun r => r) Hall).
  - now rewrite map_id.
Qed.

(** X2. Without [prefix_projection] the prefix is the embedding table
    itself: the table holds [num_virtual_tokens] rows of
    [num_layers*2*token_dim] values, and [forward] on the indices
    [[0, 1, ..., num_virtual_tokens-1]] returns exactly those values, as a
    tensor of shape [(1, num_virtual_tokens, num_layers*2*token_dim)]. *)
Theorem forward_on_arange_is_table (c : Config) (s s' : seed) (self : PrefixEncoder R) :
  PrefixTuningConfig.prefix_projection c = false ->
  init c s = (inr self, s') ->
  length (emb_weight (embedding self))
  = PrefixTuningConfig.num_virtual_tokens c
    * (PrefixTuningConfig.num_layers c * 2 * PrefixTuningConfig.token_dim c)
  /\ fst (forward (mkTensor [1; PrefixTuningConfig.num_virtual_tokens c]
                     (map Z.of_nat (seq 0 (PrefixTuningConfig.num_virtual_tokens c))))
                  self)
     = inr (mkTensor [1; PrefixTuningConfig.num_virtual_tokens c;
                      PrefixTuningConfig.num_layers c * 2 * PrefixTuningConfig.token_dim c]
                     (emb_weight (embedding self))).
Proof.
  intros Hpp Hinit. unfold PrefixEncoder_init in Hinit.
  rewrite Hpp in Hinit. cbn [andb] in Hinit. cbv beta iota zeta in Hinit.
  destruct (Embedding_init_run (PrefixTuningConfig.num_virtual_tokens c)
              (PrefixTuningConfig.num_layers c * 2 * PrefixTuningConfig.token_dim c) s)
    as (we & s1 & He & Hwe).
  run_in He Hinit. injection Hinit as <- _.
  cbn [embedding emb_weight]. split; [exact Hwe|].
  rewrite forward_result. cbn [prefix_projection embedding].
  rewrite Embedding_forward_rows.
  - cbn [shape data embedding_dim emb_weight app]. do 2 f_equal.
    rewrite map_map.
    rewrite (map_ext _ (row s_zero (PrefixTuningConfig.num_layers c * 2
                                    * PrefixTuningConfig.token_dim c) we))
      by (intros r; now rewrite Nat2Z.id).
    now apply concat_rows_of_buffer.
  - unfold in_range. cbn [data num_embeddings].
    apply Forall_map, Forall_forall. intros r Hr. apply in_seq in Hr. lia.
Qed.

Lemma flat_map_repeat {A B : Type} (f : A -> list B) (l : list A) (b : nat) :
  flat_map f (concat (repeat l b)) = concat (repeat (flat_map f l) b).
Proof.
  induction b as [|b IH]; [reflexivity|].
  cbn [repeat concat]. now rewrite flat_map_app, IH.
Qed.

Lemma length_concat_repeat {A : Type} (l : list A) (b : nat) :
  length (concat (repeat l b)) = b * length l.
Proof.
  induction b as [|b IH]; [reflexivity|].
  cbn [repeat concat]. rewrite length_app, IH. simpl. lia.
Qed.

Lemma Forall_concat_repeat {A : Type} (P : A -> Prop) (l : list A) (b : nat) :
  Forall P l -> Forall P (concat (repeat l b)).
Proof.
  intros Hl. induction b as [|b IH]; [constructor|].
  cbn [repeat concat]. apply Forall_app. now split.
Qed.

(** X8. A batch that repeats one sequence of indices gets the same
    prefix for every batch element: on an object that [forward] can run
    on, the result for [b] copies of an in-range sequence [l] is [b] copies
    of the result for [l] alone, whatever the length of [l]. *)
Theorem forward_repeats_over_batch
  (c : Config) (s s' : seed) (self : PrefixEncoder R) (l : list Z) :
  PrefixTuningConfig.prefix_projection c && PrefixTuningConfig.inference_mode c = false ->
  init c s = (inr self, s') ->
  Forall (fun i => (0 <= i < Z.of_nat (PrefixTuningConfig.num_virtual_tokens c))%Z) l ->
  exists v,
    fst (forward (mkTensor [1; length l] l) self)
    = inr (mkTensor [1; length l; PrefixTuningConfig.num_layers c * 2
                                  * PrefixTuningConfig.token_dim c] v)
    /\ forall b,
         fst (forward (mkTensor [b; length l] (concat (repeat l b))) self)
         = inr (mkTensor [b; length l; PrefixTuningConfig.num_layers c * 2
                                       * PrefixTuningConfig.token_dim c]
                  (concat (repeat v b))).
Proof.
  intros Hmode Hinit Hl.
  destruct (forward_flat_map c s Hmode Hinit) as (tok & Htok).
  exists (flat_map tok l). split.
  - rewrite (Htok (mkTensor [1; length l] l)); [reflexivity| |exact Hl].
    unfold wf. cbn [shape data numel fold_right]. lia.
  - intros b. rewrite (Htok (mkTensor [b; length l] (concat (repeat l b)))).
    + cbn [shape data app]. now rewrite flat_map_repeat.
    + unfold wf. cbn [shape data numel fold_right].
      rewrite length_concat_repeat. lia.
    + unfold in_range. cbn [data]. now apply Forall_concat_repeat.
Qed.

End Properties.

(** * The claims on concrete inputs *)

(** C1, where the code departs from it.  The configuration
    [token_dim=4, num_layers=2, num_virtual_tokens=3, encoder_hidden_size=8,
    prefix_projection=True, inference_mode=True] is constructed without
    error, and [forward] on the indices [[0, 1, 2]] raises
    [AttributeError] instead of returning a tensor of shape (1, 3, 16):
    on [transform] with both residual flags false, on [transform_1] with
    [use_residual_connect] true. *)
Theorem forward_raises_in_inference_mode :
  (exists self s',
     PrefixEncoder_init counter (sample_config (Some 8) true false false true) 0%Z
     = (inr self, s')
     /\ fst (forward sample_prefix self) = inl (AttributeError "transform"))
  /\ (exists self s',
        PrefixEncoder_init counter (sample_config (Some 8) true true false true) 0%Z
        = (inr self, s')
        /\ fst (forward sample_prefix self) = inl (AttributeError "transform_1")).
Proof.
  split; eexists; eexists; (split; [vm_compute; reflexivity | vm_compute; reflexivity]).
Qed.

(** C2 on the residual-connect object for [token_dim=4, num_layers=2,
    num_virtual_tokens=3] whose stage A is the identity matrix with a zero
    bias, and the indices [[0, 1, 2]]: stage B is fed twice the embedding. *)
Lemma residual_sum_feeds_stage_B_witness :
  exists self s' B E x,
    PrefixEncoder_init replay (sample_config None true true false false) identity_stage_A_tape
    = (inr self, s')
    /\ transform_2 self = Some B
    /\ Embedding_forward (embedding self) sample_prefix = inr E
    /\ data E = [1; 2; 3; 4; 5; 6; 7; 8; 9; 10; 11; 12]%Z
    /\ data x = map (Z.mul 2) (data E)
    /\ fst (forward sample_prefix self) = Module_forward B x.
Proof.
  destruct (PrefixEncoder_init replay (sample_config None true true false false)
              identity_stage_A_tape) as [[e|self] s'] eqn:Hinit;
    [vm_compute in Hinit; discriminate|].
  destruct (@residual_sum_feeds_stage_B Z Scalar_Z (list Z) replay
              (sample_config None true true false false) identity_stage_A_tape
              s' self sample_prefix)
    as (A & B & E & a & x & H1 & H2 & HE & Ha & Hx & _ & _ & _ & _ & Hf & _ & Htwice).
  - reflexivity.
  - reflexivity.
  - left; reflexivity.
  - exact Hinit.
  - reflexivity.
  - repeat constructor; simpl; lia.
  - exists self, s', B, E, x.
    split; [reflexivity|]. split; [exact H2|]. split; [exact HE|].
    vm_compute in Hinit. injection Hinit as <- _.
    injection H1 as <-. vm_compute in HE. injection HE as <-.
    vm_compute in Ha. injection Ha as <-.
    split; [reflexivity|]. split; [|exact Hf].
    apply Htwice; [reflexivity|]. intros z. change (z + z = 2 * z)%Z. lia.
Defined.

(** C3 on [encoder_hidden_size=None] with [use_residual_block=True]. *)
Lemma init_fails_without_hidden_size_witness :
  (exists s', PrefixEncoder_init counter (sample_config None true false true false) 0%Z
              = (inl TypeError, s'))
  /\ forall self s', PrefixEncoder_init counter (sample_config None true false true false) 0%Z
                     <> (inr self, s').
Proof.
  apply (@init_fails_without_hidden_size Z Scalar_Z Z counter
           (sample_config None true false true false) 0%Z).
  - reflexivity.
  - reflexivity.
  - reflexivity.
  - left; split; reflexivity.
Defined.

(** C4 on both residual flags true. *)
Lemma residual_connect_takes_precedence_witness :
  exists self self' s',
    PrefixEncoder_init counter (sample_config (Some 8) true true true false) 0%Z = (inr self, s')
    /\ PrefixEncoder_init counter (sample_config (Some 8) true true false false) 0%Z
       = (inr self', s')
    /\ fst (forward sample_prefix self') = fst (forward sample_prefix self).
Proof.
  destruct (@residual_connect_takes_precedence Z Scalar_Z Z counter
              (sample_config (Some 8) true true true false) 0%Z)
    as (self & self' & s' & H1 & H2 & _ & _ & _ & _ & _ & _ & Hf);
    try reflexivity.
  exists self, self', s'. split; [exact H1|]. split; [exact H2|]. apply Hf.
Defined.

(** C5 on the scenario of the specification: [token_dim=4, num_layers=2,
    num_virtual_tokens=3, encoder_hidden_size=8], plain projection. *)
Lemma plain_projection_has_no_residual_witness :
  exists self s' l1 l2,
    PrefixEncoder_init counter (sample_config (Some 8) true false false false) 0%Z
    = (inr self, s')
    /\ transform self = Some (Sequential [Linear_ l1; Tanh; Linear_ l2])
    /\ in_features l1 = 4 /\ out_features l1 = 8
    /\ in_features l2 = 8 /\ out_features l2 = 16
    /\ fst (forward sample_prefix self)
       = (E <- Embedding_forward (embedding self) sample_prefix ;;
          y <- Linear_forward l1 E ;;
          Linear_forward l2 (tensor_map s_tanh y)).
Proof.
  destruct (PrefixEncoder_init counter (sample_config (Some 8) true false false false) 0%Z)
    as [[e|self] s'] eqn:Hinit; [vm_compute in Hinit; discriminate|].
  destruct (@plain_projection_has_no_residual Z Scalar_Z Z counter
              (sample_config (Some 8) true false false false) 0%Z s' self)
    as (h & l1 & l2 & Hh & Hi1 & Ho1 & Hi2 & Ho2 & Ht & _ & _ & Hf);
    try reflexivity; [exact Hinit|].
  injection Hh as <-.
  exists self, s', l1, l2. repeat (split; [assumption || reflexivity|]).
  apply Hf.
Defined.

(** C6 on the index [3 = num_virtual_tokens]. *)
Lemma forward_index_out_of_range_witness :
  exists self s',
    PrefixEncoder_init counter (sample_config (Some 8) true false false false) 0%Z
    = (inr self, s')
    /\ fst (forward (mkTensor [1; 3] [0; 1; 3]%Z) self) = inl IndexError.
Proof.
  destruct (PrefixEncoder_init counter (sample_config (Some 8) true false false false) 0%Z)
    as [[e|self] s'] eqn:Hinit; [vm_compute in Hinit; discriminate|].
  exists self, s'. split; [reflexivity|].
  apply (@forward_index_out_of_range Z Scalar_Z Z counter
           (sample_config (Some 8) true false false false) 0%Z s' self).
  - exact Hinit.
  - simpl. right; right; left. right. lia.
Defined.

(** C7 as stated fails: indices of rank 1, and indices of shape (1, 2)
    where [num_virtual_tokens] is 3, are accepted and a tensor comes
    back. *)
Lemma forward_wrong_index_shape_returns :
  exists self s' y1 y2,
    PrefixEncoder_init counter (sample_config (Some 8) true false false false) 0%Z
    = (inr self, s')
    /\ fst (forward (mkTensor [2] [0; 1]%Z) self) = inr y1 /\ shape y1 = [2; 16]
    /\ fst (forward (mkTensor [1; 2] [2; 0]%Z) self) = inr y2 /\ shape y2 = [1; 2; 16].
Proof.
  do 4 eexists.
  split; [vm_compute; reflexivity|].
  split; [vm_compute; reflexivity|].
  split; [reflexivity|].
  split; [vm_compute; reflexivity|].
  reflexivity.
Qed.

(** C7 as the code has it, on rank-1 indices. *)
Lemma forward_accepts_any_index_shape_witness :
  exists self s' y,
    PrefixEncoder_init counter (sample_config None false false true true) 0%Z = (inr self, s')
    /\ fst (forward (mkTensor [2] [2; 2]%Z) self) = inr y
    /\ shape y = [2; 16].
Proof.
  destruct (PrefixEncoder_init counter (sample_config None false false true true) 0%Z)
    as [[e|self] s'] eqn:Hinit; [vm_compute in Hinit; discriminate|].
  destruct (@forward_accepts_any_index_shape Z Scalar_Z Z counter
              (sample_config None false false true true) 0%Z s' self (mkTensor [2] [2; 2]%Z))
    as (y & Hy & Hs & _).
  - reflexivity.
  - exact Hinit.
  - reflexivity.
  - repeat constructor; simpl; lia.
  - exists self, s', y. split; [reflexivity|]. split; [exact Hy | exact Hs].
Defined.

(** C8 on two residual-block objects built from generator states 0 and 5
    of the all-zero generator. *)
Lemma forward_deterministic_witness :
  exists e1 e2 s1' s2',
    PrefixEncoder_init zeros (sample_config (Some 8) true false true false) 0%Z = (inr e1, s1')
    /\ PrefixEncoder_init zeros (sample_config (Some 8) true false true false) 5%Z = (inr e2, s2')
    /\ fst (forward sample_prefix e1) = fst (forward sample_prefix e2)
    /\ fst (forward sample_prefix (snd (forward sample_prefix e1)))
       = fst (forward sample_prefix e1).
Proof.
  destruct (PrefixEncoder_init zeros (sample_config (Some 8) true false true false) 0%Z)
    as [[e|e1] s1'] eqn:H1; [vm_compute in H1; discriminate|].
  destruct (PrefixEncoder_init zeros (sample_config (Some 8) true false true false) 5%Z)
    as [[e|e2] s2'] eqn:H2; [vm_compute in H2; discriminate|].
  assert (Hp : parameters e1 = parameters e2).
  { pose proof H1 as K1. pose proof H2 as K2. vm_compute in K1, K2.
    injection K1 as <- _. injection K2 as <- _. reflexivity. }
  exists e1, e2, s1', s2'. split; [reflexivity|]. split; [reflexivity|].
  exact (@forward_deterministic Z Scalar_Z Z zeros
           (sample_config (Some 8) true false true false)
           0%Z s1' 5%Z s2' e1 e2 sample_prefix H1 H2 Hp).
Defined.

(** C10 on [encoder_hidden_size=None]: the object is the one built with
    [encoder_hidden_size=8], stage A is 4 -> 4, stage B is 4 -> 16. *)
Lemma residual_connect_ignores_hidden_size_witness :
  exists self s' l1 l2 y,
    PrefixEncoder_init counter (sample_config None true true false false) 0%Z = (inr self, s')
    /\ PrefixEncoder_init counter (sample_config (Some 8) true true false false) 0%Z
       = (inr self, s')
    /\ transform_1 self = Some (Single (Linear_ l1))
    /\ in_features l1 = 4 /\ out_features l1 = 4
    /\ length (lin_weight l1) = 16
    /\ transform_2 self = Some (Sequential [Tanh; Linear_ l2])
    /\ in_features l2 = 4 /\ out_features l2 = 16
    /\ length (lin_weight l2) = 64
    /\ fst (forward sample_prefix self) = inr y
    /\ shape y = [1; 3; 16].
Proof.
  destruct (@residual_connect_ignores_hidden_size Z Scalar_Z Z counter
              (sample_config None true true false false) 0%Z)
    as (self & s' & l1 & l2 & Hinit & Hany & _ & _ & _ & Ht1 & Hi1 & Ho1 & Hw1 & _
        & Ht2 & Hi2 & Ho2 & Hw2 & _ & _ & Hfwd); try reflexivity.
  destruct (Hfwd 1 sample_prefix) as (y & Hy & Hs & _).
  - reflexivity.
  - reflexivity.
  - repeat constructor; simpl; lia.
  - exists self, s', l1, l2, y. split; [exact Hinit|]. split; [exact (Hany (Some 8))|].
    split; [exact Ht1|]. split; [exact Hi1|]. split; [exact Ho1|]. split; [exact Hw1|].
    split; [exact Ht2|]. split; [exact Hi2|]. split; [exact Ho2|]. split; [exact Hw2|].
    split; [exact Hy | exact Hs].
Defined.

(** * The further properties on concrete inputs *)

(** X1 on two configurations without [prefix_projection] that differ in
    every other flag and in [encoder_hidden_size]. *)
Lemma no_projection_ignores_other_fields_witness :
  exists we s',
    PrefixEncoder_init counter (sample_config None false false false false) 0%Z
    = (inr (obj_direct (sample_config None false false false false) we), s')
    /\ PrefixEncoder_init counter (sample_config (Some 8) false true true true) 0%Z
       = (inr (obj_direct (sample_config (Some 8) false true true true) we), s')
    /\ fst (forward sample_prefix (obj_direct (sample_config (Some 8) false true true true) we))
       = fst (forward sample_prefix (obj_direct (sample_config None false false false false) we)).
Proof.
  destruct (@no_projection_ignores_other_fields Z Scalar_Z Z counter
              (sample_config None false false false false)
              (sample_config (Some 8) false true true true) 0%Z)
    as (we & s' & H1 & H2 & _ & Hf); try reflexivity.
  exists we, s'. split; [exact H1|]. split; [exact H2|]. apply Hf.
Defined.

(** X2 on [token_dim=4, num_layers=2, num_virtual_tokens=3]. *)
Lemma forward_on_arange_is_table_witness :
  exists self s',
    PrefixEncoder_init counter (sample_config None false false false false) 0%Z = (inr self, s')
    /\ length (emb_weight (embedding self)) = 48
    /\ fst (forward sample_prefix self)
       = inr (mkTensor [1; 3; 16] (emb_weight (embedding self))).
Proof.
  destruct (PrefixEncoder_init counter (sample_config None false false false false) 0%Z)
    as [[e|self] s'] eqn:Hinit; [vm_compute in Hinit; discriminate|].
  exists self, s'. split; [reflexivity|].
  exact (@forward_on_arange_is_table Z Scalar_Z Z counter
           (sample_config None false false false false) 0%Z s' self eq_refl Hinit).
Defined.

(** X3 on the plain projection of the specification's scenario. *)
Lemma forward_is_per_index_witness :
  exists self s' tok,
    PrefixEncoder_init counter (sample_config (Some 8) true false false false) 0%Z
    = (inr self, s')
    /\ fst (forward (mkTensor [] [1]%Z) self) = inr (mkTensor [16] (tok 1%Z))
    /\ fst (forward (mkTensor [2; 2] [2; 0; 1; 2]%Z) self)
       = inr (mkTensor [2; 2; 16] (tok 2 ++ tok 0 ++ tok 1 ++ tok 2 ++ [])%Z).
Proof.
  destruct (PrefixEncoder_init counter (sample_config (Some 8) true false false false) 0%Z)
    as [[e|self] s'] eqn:Hinit; [vm_compute in Hinit; discriminate|].
  destruct (@forward_is_per_index Z Scalar_Z Z counter
              (sample_config (Some 8) true false false false) 0%Z s' self eq_refl Hinit)
    as (tok & H1 & Hall).
  exists self, s', tok. split; [reflexivity|]. split.
  - apply H1. simpl. lia.
  - apply (Hall (mkTensor [2; 2] [2; 0; 1; 2]%Z)).
    + reflexivity.
    + repeat constructor; simpl; lia.
Defined.

(** X4 on the residual block with [encoder_hidden_size=8]. *)
Lemma parameter_sizes_witness :
  exists self s',
    PrefixEncoder_init counter (sample_config (Some 8) true false true false) 0%Z
    = (inr self, s')
    /\ map (@length Z) (parameters self) = [12; 32; 8; 32; 4; 4; 4; 64; 16].
Proof.
  destruct (PrefixEncoder_init counter (sample_config (Some 8) true false true false) 0%Z)
    as [[e|self] s'] eqn:Hinit; [vm_compute in Hinit; discriminate|].
  exists self, s'. split; [reflexivity|].
  destruct (@parameter_sizes Z Scalar_Z Z counter
              (sample_config (Some 8) true false true false) 0%Z s' self Hinit)
    as (_ & _ & Hblock & _).
  destruct (Hblock eq_refl eq_refl eq_refl) as (h & Hh & Hsizes).
  injection Hh as <-. exact Hsizes.
Defined.

(** X5 on [prefix_projection=True, inference_mode=True] with
    [use_residual_block=True]. *)
Lemma forward_unusable_after_inference_construction_witness :
  exists self s',
    PrefixEncoder_init counter (sample_config (Some 8) true false true true) 0%Z
    = (inr self, s')
    /\ transform_1 self = None
    /\ embedding_dim (embedding self) = 16
    /\ fst (forward sample_prefix self) = inl (AttributeError "transform_1").
Proof.
  destruct (@forward_unusable_after_inference_construction Z Scalar_Z Z counter
              (sample_config (Some 8) true false true true) 0%Z eq_refl eq_refl)
    as (self & s' & Hinit & H1 & _ & _ & Hd & Hf).
  exists self, s'. split; [exact Hinit|]. split; [exact H1|]. split; [exact Hd|].
  apply Hf. repeat constructor; simpl; lia.
Defined.

(** X6 on the residual-connect object without [encoder_hidden_size]. *)
Lemma residual_connect_forward_witness :
  exists self s' l1 l2,
    PrefixEncoder_init counter (sample_config None true true false false) 0%Z = (inr self, s')
    /\ transform_1 self = Some (Single (Linear_ l1))
    /\ transform_2 self = Some (Sequential [Tanh; Linear_ l2])
    /\ fst (forward sample_prefix self)
       = (E <- Embedding_forward (embedding self) sample_prefix ;;
          a <- Linear_forward l1 E ;;
          x <- tensor_add a E ;;
          Linear_forward l2 (tensor_map s_tanh x)).
Proof.
  destruct (PrefixEncoder_init counter (sample_config None true true false false) 0%Z)
    as [[e|self] s'] eqn:Hinit; [vm_compute in Hinit; discriminate|].
  destruct (@residual_connect_forward Z Scalar_Z Z counter
              (sample_config None true true false false) 0%Z s' self
              eq_refl eq_refl eq_refl Hinit)
    as (l1 & l2 & _ & _ & _ & _ & H1 & H2 & _ & Hf).
  exists self, s', l1, l2. split; [reflexivity|]. split; [exact H1|].
  split; [exact H2|]. apply Hf.
Defined.

(** X7 on the residual-block object with [encoder_hidden_size=8]. *)
Lemma residual_block_forward_witness :
  exists self s' l1 l2 ln l3,
    PrefixEncoder_init counter (sample_config (Some 8) true false true false) 0%Z
    = (inr self, s')
    /\ transform_1 self = Some (Sequential [Linear_ l1; ReLU; Linear_ l2; LayerNorm_ ln])
    /\ ln_weight ln = [1; 1; 1; 1]%Z /\ ln_bias ln = [0; 0; 0; 0]%Z
    /\ fst (forward sample_prefix self)
       = (E <- Embedding_forward (embedding self) sample_prefix ;;
          y1 <- Linear_forward l1 E ;;
          y2 <- Linear_forward l2 (tensor_map s_relu y1) ;;
          a <- LayerNorm_forward ln y2 ;;
          x <- tensor_add a E ;;
          Linear_forward l3 (tensor_map s_tanh x)).
Proof.
  destruct (PrefixEncoder_init counter (sample_config (Some 8) true false true false) 0%Z)
    as [[e|self] s'] eqn:Hinit; [vm_compute in Hinit; discriminate|].
  destruct (@residual_block_forward Z Scalar_Z Z counter
              (sample_config (Some 8) true false true false) 0%Z s' self
              eq_refl eq_refl eq_refl eq_refl Hinit)
    as (h & l1 & l2 & ln & l3 & _ & _ & _ & _ & _ & _ & Hg & Hbt & _ & _ & H1 & _ & _ & Hf).
  exists self, s', l1, l2, ln, l3. split; [reflexivity|]. split; [exact H1|].
  split; [exact Hg|]. split; [exact Hbt|]. apply Hf.
Defined.

(** X8 on a batch of two copies of the indices [0, 1, 2]. *)
Lemma forward_repeats_over_batch_witness :
  exists self s' v,
    PrefixEncoder_init counter (sample_config None true true false false) 0%Z = (inr self, s')
    /\ fst (forward sample_prefix self) = inr (mkTensor [1; 3; 16] v)
    /\ fst (forward (mkTensor [2; 3] [0; 1; 2; 0; 1; 2]%Z) self)
       = inr (mkTensor [2; 3; 16] (v ++ v ++ [])).
Proof.
  destruct (PrefixEncoder_init counter (sample_config None true true false false) 0%Z)
    as [[e|self] s'] eqn:Hinit; [vm_compute in Hinit; discriminate|].
  destruct (@forward_repeats_over_batch Z Scalar_Z Z counter
              (sample_config None true true false false) 0%Z s' self [0; 1; 2]%Z
              eq_refl Hinit)
    as (v & H1 & Hb).
  - repeat constructor; simpl; lia.
  - exists self, s', v. split; [reflexivity|]. split; [exact H1|]. exact (Hb 2).
Defined.
